(** * sdjournal/read.go: the journal reader and its follow loops

    A shallow embedding of [JournalReader] (read.go) and the properties of
    its construction, its single reads and its two follow loops.

    The reader drives a [*Journal] handle.  The handle's methods live in
    journal.go, next to read.go; here they are the fields of the class
    [JournalAPI], so that every statement about read.go holds for any
    handle.  [Store] further down is one concrete handle, used to run the
    code on examples. *)

From Stdlib Require Import ZArith List String Ascii Lia Bool.
From Stdlib.Strings Require Import Byte.
From stdpp Require Import base gmap strings pretty.

Local Open Scope string_scope.
Local Open Scope Z_scope.

(** ** Go values *)

(** [error]: the two sentinels read.go compares against or returns
    ([io.EOF], [ErrExpired]) and every other error value, kept as its
    message.  A nil error is [None : option error]. *)
Inductive error : Type :=
  | EOF
  | ErrExpired
  | Other (msg : string).

(** Modelled from the spec: what a fallible call of the journal handle
    (journal.go, not among the sources) gives back, Go's [(a, nil)] or
    [(_, err)].  After sections 6 and 7 a failing call yields a
    StorageError, which is neither the end-of-stream signal [io.EOF] nor
    [ErrExpired]; it is kept as its message and reaches the caller as
    [Other msg].  The same type serves for [json.Marshal]. *)
Inductive result (A : Type) : Type :=
  | Ok (a : A)
  | Err (msg : string).
Arguments Ok {A} a.
Arguments Err {A} msg.

(** A call that only reports an error: [None] is nil. *)
Abbreviation status := (option string).

(** [JournalEntry] is a Go map, so it can be nil ([None]). *)
Abbreviation Fields := (gmap string string).
Abbreviation JournalEntry := (option (gmap string string)).

Definition error_of (s : status) : option error :=
  match s with
  | Some m => Some (Other m)
  | None => None
  end.

(** Fixed-width integers, with their wrap-around. *)
Definition uint64 (z : Z) : Z := z mod 2 ^ 64.
Definition int64 (z : Z) : Z := (z + 2 ^ 63) mod 2 ^ 64 - 2 ^ 63.

(** The line feed that ends every rendered message. *)
Definition newline : string := String (ascii_of_nat 10) EmptyString.

(** [len(s)] and [[]byte(s)] of a Go string. *)
Definition len (s : string) : Z := Z.of_nat (String.length s).
Definition bytes (s : string) : list byte := list_byte_of_string s.

(** Go's builtin [copy(dst, src)]: overwrites the first
    [min(len(dst), len(src))] bytes of [dst]. *)
Definition copy (dst src : list byte) : list byte :=
  firstn (List.length dst) src ++ skipn (List.length src) dst.

(** Go's [make([]byte, n)]: [n] zero bytes. *)
Definition make (n : Z) : list byte := repeat x00 (Z.to_nat n).
Arguments make : simpl never.

(** ** The journal handle (journal.go) *)

(** Modelled from the spec: [Match] and its [String] method are declared in
    journal.go; section 3 gives the encoding, [FIELD=value]. *)
Record Match : Type := { Field : string; Value : string }.

Definition Match_String (m : Match) : string := Field m +:+ "=" +:+ Value m.

(** Modelled from the spec: the methods of [*Journal] that read.go calls
    (journal.go, not among the sources), with the signatures of section 6
    and of their call sites, as state transformers on the handle's state
    [J]; and the three event codes read.go names.  [AddMatch] may report
    an error, as section 7 has it ("failure to ... apply initial
    seek/filters"). *)
Class JournalAPI (J : Type) : Type := {
  NewJournal : result J;
  AddMatch : string -> J -> status * J;
  SeekRealtimeUsec : Z -> J -> status * J;
  SeekTail : J -> status * J;
  PreviousSkip : Z -> J -> result Z * J;
  Next : J -> result Z * J;
  GetData : string -> J -> result string * J;
  GetDataAll : J -> result JournalEntry * J;
  GetRealtimeUsec : J -> result Z * J;
  Wait : Z -> J -> Z * J;
  Close : J -> status * J;
  SD_JOURNAL_NOP : Z;
  SD_JOURNAL_APPEND : Z;
  SD_JOURNAL_INVALIDATE : Z
}.

(** What read.go uses of the Go library: [json.Marshal] on an entry,
    [time.Time.String] on an instant given in nanoseconds since the epoch,
    and the reading of [time.Now()] in nanoseconds. *)
Class GoLib : Type := {
  json_Marshal : JournalEntry -> result string;
  Time_String : Z -> string;
  time_Now : Z
}.

(** [time.Microsecond], [time.Millisecond] and [time.Second] in nanoseconds. *)
Definition Microsecond : Z := 1000.
Definition Millisecond : Z := 1000000.
Definition Second : Z := 1000000000.

(** ** A state monad for the reader's methods *)

Definition St (S A : Type) : Type := S -> A * S.

Definition ret {S A : Type} (a : A) : St S A := fun s => (a, s).

Definition bind {S A B : Type} (c : St S A) (k : A -> St S B) : St S B :=
  fun s => let (a, s') := c s in k a s'.

Notation "'let*' x ':=' c 'in' k" := (bind c (fun x => k))
  (at level 10, x name, c at level 100, k at level 200).

(** ** JournalReader *)

Record JournalReaderConfig : Type := {
  Since : Z;          (* time.Duration: int64 nanoseconds *)
  NumFromTail : Z;    (* uint64 *)
  Matches : list Match
}.

Record JournalReader (J : Type) : Type := { Journal : J }.
Arguments Journal {J} _.

Section Reader.
Context {J : Type} `{API : JournalAPI J} `{Lib : GoLib}.

(** A call on [r.Journal]. *)
Definition journal {A : Type} (op : J -> A * J) : St (JournalReader J) A :=
  fun r => let (a, j) := op (Journal r) in (a, {| Journal := j |}).

(** The loop over [config.Matches], read.go:63-65.  What [AddMatch]
    returns is dropped: the call is a statement of its own there. *)
Definition add_matches (ms : list Match) (j : J) : J :=
  fold_left (fun j m => snd (AddMatch (Match_String m) j)) ms j.

(** [NewJournalReader], read.go:53.  It returns Go's pair: a reader and
    nil, or nil and an error.  [start.UnixNano()] is the int64 count of
    nanoseconds of [time.Now().Add(config.Since)]; [/] truncates towards
    zero; [NumFromTail + 1] is uint64 arithmetic. *)
Definition NewJournalReader (config : JournalReaderConfig)
  : option (JournalReader J) * option error :=
  match NewJournal with
  | Err m => (None, Some (Other m))
  | Ok j =>
    let j := add_matches (Matches config) j in
    if negb (Since config =? 0) then
      let start := int64 (time_Now + Since config) in
      match SeekRealtimeUsec (uint64 (Z.quot start 1000)) j with
      | (Some m, _) => (None, Some (Other m))
      | (None, j) => (Some {| Journal := j |}, None)
      end
    else if negb (NumFromTail config =? 0) then
      match SeekTail j with
      | (Some m, _) => (None, Some (Other m))
      | (None, j) =>
        match PreviousSkip (uint64 (NumFromTail config + 1)) j with
        | (Err m, _) => (None, Some (Other m))
        | (Ok _, j) => (Some {| Journal := j |}, None)
        end
      end
    else (Some {| Journal := j |}, None)
  end.

(** [buildMessage], read.go:276. *)
Definition buildMessage : St (JournalReader J) (string * option error) :=
  let* m := journal (GetData "MESSAGE") in
  match m with
  | Err e => ret ("", Some (Other e))
  | Ok msg =>
    let* u := journal GetRealtimeUsec in
    match u with
    | Err e => ret ("", Some (Other e))
    | Ok usec =>
      let timestamp := int64 (int64 usec * Microsecond) in
      ret (Time_String timestamp +:+ " " +:+ msg +:+ newline, None)
    end
  end.

(** [buildRawMessage], read.go:294. *)
Definition buildRawMessage : St (JournalReader J) (JournalEntry * option error) :=
  let* f := journal GetDataAll in
  match f with
  | Err e => ret (None, Some (Other e))
  | Ok fields => ret (fields, None)
  end.

(** [buildJsonMessage], read.go:302. *)
Definition buildJsonMessage : St (JournalReader J) (string * option error) :=
  let* f := journal GetDataAll in
  match f with
  | Err e => ret ("", Some (Other e))
  | Ok fields =>
    match json_Marshal fields with
    | Err e => ret ("", Some (Other e))
    | Ok b => ret (b +:+ newline, None)
    end
  end.

(** [Read], read.go:91: the buffer after the call, the count and the
    error. *)
Definition Read (b : list byte)
  : St (JournalReader J) (list byte * Z * option error) :=
  let* n := journal Next in
  match n with
  | Err e => ret (b, 0, Some (Other e))
  | Ok c =>
    if c =? 0 then ret (b, 0, Some EOF)
    else
      let* m := buildJsonMessage in
      match m with
      | (_, Some err) => ret (b, 0, Some err)
      | (msg, None) => ret (copy b (bytes msg), len msg, None)
      end
  end.

(** [ReadEntry], read.go:122. *)
Definition ReadEntry : St (JournalReader J) (JournalEntry * option error) :=
  let* n := journal Next in
  match n with
  | Err e => ret (None, Some (Other e))
  | Ok c =>
    if c =? 0 then ret (None, Some EOF)
    else
      let* m := buildRawMessage in
      match m with
      | (_, Some err) => ret (None, Some err)
      | (msg, None) => ret (msg, None)
      end
  end.

(** [Close], read.go:150. *)
Definition ReaderClose : St (JournalReader J) (option error) :=
  let* s := journal Close in ret (error_of s).

End Reader.

(** A value held in a [map[string]interface{}], as [fmt] prints it: the
    name of its dynamic type under [%T] and its default rendering under
    [%v]. *)
Record Printed : Type := { type_name : string; shown : string }.

Definition dquote : string := String (ascii_of_nat 34) EmptyString.

(** The line [printWithType] appends for one entry of the map: two
    spaces, the quoted key, [ :  (], the type, [)], the quoted value and a
    line feed. *)
Definition typed_line (kv : string * Printed) : string :=
  "  " +:+ dquote +:+ fst kv +:+ dquote +:+ " :  (" +:+ type_name (snd kv)
       +:+ ")" +:+ dquote +:+ shown (snd kv) +:+ dquote +:+ newline.

(** [printWithType], read.go:315.  [visits] lists the entries of the map
    in the order in which [range] visits them, an order Go leaves open. *)
Definition printWithType (visits : list (string * Printed)) : string :=
  let s := "{" +:+ newline in
  let s := fold_left (fun s kv => s +:+ typed_line kv) visits s in
  s +:+ newline +:+ "}" +:+ newline.

(** ** The follow loops *)

(** The cancellation signal.  [ctx.Done()] is looked at in [select]
    statements only; the looks of one run are numbered from 0, and the
    channel, once closed, stays closed: it is found closed at every look
    from number [deadline] on ([None]: it is never closed). *)
Record Ctx : Type := { deadline : option nat }.

Definition Done (ctx : Ctx) (k : nat) : bool :=
  match deadline ctx with
  | Some d => (d <=? k)%nat
  | None => false
  end.

(** When both cases of a blocking [select] are ready Go picks one at
    random: [sched k = true] picks the [events] case at look [k]. *)
Definition Sched : Type := nat -> bool.

(** What a run acts on: the reader, the number of looks at [ctx.Done()] so
    far, what the writer has received (oldest first) and the lines given to
    [log.Printf]. *)
Record World (J T : Type) : Type := {
  reader : JournalReader J;
  polls : nat;
  sink : list T;
  logged : list string
}.
Arguments reader {J T} _.
Arguments polls {J T} _.
Arguments sink {J T} _.
Arguments logged {J T} _.

Definition with_reader {J T : Type} (r : JournalReader J) (w : World J T) : World J T :=
  {| reader := r; polls := polls w; sink := sink w; logged := logged w |}.

Definition poll {J T : Type} (w : World J T) : World J T :=
  {| reader := reader w; polls := S (polls w); sink := sink w; logged := logged w |}.

Definition send {J T : Type} (x : T) (w : World J T) : World J T :=
  {| reader := reader w; polls := polls w; sink := sink w ++ [x]; logged := logged w |}.

Definition log_Printf {J T : Type} (line : string) (w : World J T) : World J T :=
  {| reader := reader w; polls := polls w; sink := sink w; logged := logged w ++ [line] |}.

(** How one turn of a [process:] loop ends. *)
Inductive flow : Type :=
  | Continue
  | Break
  | Return (err : option error).

(** How a run stands after the turns it was given: it has returned, or it
    is still in the loop. *)
Inductive outcome (W : Type) : Type :=
  | Returned (err : option error) (w : W)
  | Running (w : W).
Arguments Returned {W} err w.
Arguments Running {W} w.

Definition world_of {W : Type} (o : outcome W) : W :=
  match o with
  | Returned _ w => w
  | Running w => w
  end.

Definition returned {W : Type} (o : outcome W) : option (option error) :=
  match o with
  | Returned e _ => Some e
  | Running _ => None
  end.

(** [err != nil && err != io.EOF] *)
Definition fatal (err : option error) : bool :=
  match err with
  | None => false
  | Some EOF => false
  | Some _ => true
  end.

Section Follow.
Context {J : Type} `{API : JournalAPI J} `{Lib : GoLib}.

(** The tail of a turn, read.go:178-208 and 239-268: a poller goroutine
    calls [Wait d] and hands the event code over [events], while the loop
    blocks in a [select] on [ctx.Done()] and [events].  The [events] case
    runs when the channel is not found closed, or when both cases are
    ready and the scheduler picks it; the code is looked up among the
    three known ones and logged when it is none of them.  Taking the
    [ctx.Done()] case leaves the poller's [Wait] in flight: it is not
    sequenced here.  (In [Follow] the poller may start further [Wait]s
    after the first; they run beside the loop and are not sequenced here
    either.) *)
Definition await {T : Type} (d : Z) (ctx : Ctx) (sched : Sched)
    (w : World J T) : flow * World J T :=
  let fired := Done ctx (polls w) in
  let pick := sched (polls w) in
  let w := poll w in
  if fired && negb pick then (Return (Some ErrExpired), w)
  else
    let (e, r) := journal (Wait d) (reader w) in
    let w := with_reader r w in
    let w :=
      if (e =? SD_JOURNAL_NOP) || (e =? SD_JOURNAL_APPEND)
         || (e =? SD_JOURNAL_INVALIDATE)
      then w
      else log_Printf ("Received unknown event: " +:+ pretty e +:+ newline) w in
    (Continue, w).

(** One turn of the loop of [FollowJournal], read.go:162-209.  [msg] and
    [err] are the loop's own variables ([msg, err := r.ReadEntry()]). *)
Definition FollowJournal_turn (ctx : Ctx) (sched : Sched)
    (w : World J JournalEntry) : flow * World J JournalEntry :=
  let '((msg, err), r) := ReadEntry (reader w) in
  let w := with_reader r w in
  if fatal err then (Break, w)
  else
    let fired := Done ctx (polls w) in
    let w := poll w in
    if fired then (Return (Some ErrExpired), w)
    else
      match msg with
      | Some _ => (Continue, send msg w)
      | None => await (100 * Millisecond) ctx sched w
      end.

(** [FollowJournal], read.go:157, run for at most [turns] turns of its
    loop.  The result [err] of the signature is not the [err] of the loop
    body; it still holds nil at the final [return]. *)
Fixpoint FollowJournal (ctx : Ctx) (sched : Sched) (turns : nat)
    (w : World J JournalEntry) : outcome (World J JournalEntry) :=
  let err : option error := None in
  match turns with
  | O => Running w
  | S turns =>
    match FollowJournal_turn ctx sched w with
    | (Continue, w) => FollowJournal ctx sched turns w
    | (Break, w) => Returned err w
    | (Return e, w) => Returned e w
    end
  end.

(** One turn of the loop of [Follow], read.go:221-269. *)
Definition Follow_turn (ctx : Ctx) (sched : Sched)
    (w : World J (list byte)) : flow * World J (list byte) :=
  let msg := make (Z.shiftl (64 * 1) 10) in
  let '((msg, c, err), r) := Read msg (reader w) in
  let w := with_reader r w in
  if fatal err then (Break, w)
  else
    let fired := Done ctx (polls w) in
    let w := poll w in
    if fired then (Return (Some ErrExpired), w)
    else if 0 <? c then (Continue, send msg w)
    else await (1 * Second) ctx sched w.

(** [Follow], read.go:216, run for at most [turns] turns of its loop. *)
Fixpoint Follow (ctx : Ctx) (sched : Sched) (turns : nat)
    (w : World J (list byte)) : outcome (World J (list byte)) :=
  let err : option error := None in
  match turns with
  | O => Running w
  | S turns =>
    match Follow_turn ctx sched w with
    | (Continue, w) => Follow ctx sched turns w
    | (Break, w) => Returned err w
    | (Return e, w) => Returned e w
    end
  end.

End Follow.

Section Vocabulary.
Context {J : Type} `{API : JournalAPI J}.

(** The event codes the loops name in their [switch]. *)
Definition known_event (e : Z) : bool :=
  (e =? SD_JOURNAL_NOP) || (e =? SD_JOURNAL_APPEND)
  || (e =? SD_JOURNAL_INVALIDATE).

(** The line logged for any other code. *)
Definition unknown_event_line (e : Z) : string :=
  "Received unknown event: " +:+ pretty e +:+ newline.

(** [reads n r]: the entries of [n] calls of [ReadEntry] in a row and the
    reader they leave, when each of them yields an entry. *)
Fixpoint reads (n : nat) (r : JournalReader J)
  : option (list JournalEntry * JournalReader J) :=
  match n with
  | O => Some ([], r)
  | S n =>
    match ReadEntry r with
    | ((Some f, None), r') =>
      match reads n r' with
      | Some (ms, r'') => Some (Some f :: ms, r'')
      | None => None
      end
    | _ => None
    end
  end.

End Vocabulary.

(** [grows P l l']: [l'] is [l] with elements appended, each of which
    satisfies [P]. *)
Definition grows {A : Type} (P : A -> Prop) (l l' : list A) : Prop :=
  exists added, l' = (l ++ added)%list /\ Forall P added.

(** ** Two ways of looking at a handle *)

(** A call on the first component of a pair of states. *)
Definition lift {J H A : Type} (op : J -> A * J) : J * H -> A * (J * H) :=
  fun s => let (a, j) := op (fst s) in (a, (j, snd s)).


Section Views.
Context {J : Type} (API : JournalAPI J).

(** [recording]: the handle [API] together with the list of the entries
    [GetDataAll] has decoded on it so far, oldest first.  Every call does
    what it does under [API]; only the list grows. *)
Definition recording : JournalAPI (J * list Fields) := {|
  NewJournal :=
    match NewJournal with
    | Ok j => Ok (j, [])
    | Err m => Err m
    end;
  AddMatch m := lift (AddMatch m);
  SeekRealtimeUsec u := lift (SeekRealtimeUsec u);
  SeekTail := lift SeekTail;
  PreviousSkip n := lift (PreviousSkip n);
  Next := lift Next;
  GetData name := lift (GetData name);
  GetDataAll s :=
    let (f, j) := GetDataAll (fst s) in
    match f with
    | Ok (Some fields) => (f, (j, (snd s ++ [fields])%list))
    | _ => (f, (j, snd s))
    end;
  GetRealtimeUsec := lift GetRealtimeUsec;
  Wait d := lift (Wait d);
  Close := lift Close;
  SD_JOURNAL_NOP := SD_JOURNAL_NOP;
  SD_JOURNAL_APPEND := SD_JOURNAL_APPEND;
  SD_JOURNAL_INVALIDATE := SD_JOURNAL_INVALIDATE
|}.

(** [with_event g]: the handle [API], except that [Wait d] on state [j]
    reports the event code [g d j]; what [Wait] does to the state is
    unchanged. *)
Definition with_event (g : Z -> J -> Z) : JournalAPI J := {|
  NewJournal := NewJournal;
  AddMatch := AddMatch;
  SeekRealtimeUsec := SeekRealtimeUsec;
  SeekTail := SeekTail;
  PreviousSkip := PreviousSkip;
  Next := Next;
  GetData := GetData;
  GetDataAll := GetDataAll;
  GetRealtimeUsec := GetRealtimeUsec;
  Wait d j := (g d j, snd (Wait d j));
  Close := Close;
  SD_JOURNAL_NOP := SD_JOURNAL_NOP;
  SD_JOURNAL_APPEND := SD_JOURNAL_APPEND;
  SD_JOURNAL_INVALIDATE := SD_JOURNAL_INVALIDATE
|}.

End Views.

Section Noting.
Context {J : Type} (API : JournalAPI J).

(** [noting]: the handle [API] together with the list of the event codes
    [Wait] has reported on it so far, oldest first.  Every call does what
    it does under [API]; only the list grows. *)
Definition noting : JournalAPI (J * list Z) := {|
  NewJournal :=
    match NewJournal with
    | Ok j => Ok (j, [])
    | Err m => Err m
    end;
  AddMatch m := lift (AddMatch m);
  SeekRealtimeUsec u := lift (SeekRealtimeUsec u);
  SeekTail := lift SeekTail;
  PreviousSkip n := lift (PreviousSkip n);
  Next := lift Next;
  GetData name := lift (GetData name);
  GetDataAll := lift GetDataAll;
  GetRealtimeUsec := lift GetRealtimeUsec;
  Wait d s :=
    let (e, j) := Wait d (fst s) in (e, (j, (snd s ++ [e])%list));
  Close := lift Close;
  SD_JOURNAL_NOP := SD_JOURNAL_NOP;
  SD_JOURNAL_APPEND := SD_JOURNAL_APPEND;
  SD_JOURNAL_INVALIDATE := SD_JOURNAL_INVALIDATE
|}.

End Noting.

(** The event codes a noting handle has reported so far. *)
Definition reported {J : Type} (s : J * list Z) : list Z := snd s.

(** The world of a run on a handle that keeps a list beside its state,
    seen without the list. *)
Definition forget {J H T : Type} (w : World (J * H) T) : World J T :=
  {| reader := {| Journal := fst (Journal (reader w)) |};
     polls := polls w; sink := sink w; logged := logged w |}.

(** What a stretch of a run on a noting handle reported and logged: the
    codes [codes], in that order, and the lines of those of them that are
    not known, in that order. *)
Definition noted {J : Type} (API : JournalAPI J) {T : Type}
    (w w' : World (J * list Z) T) : Prop :=
  exists codes,
    reported (Journal (reader w')) = (reported (Journal (reader w)) ++ codes)%list
    /\ logged w'
       = (logged w
            ++ List.map unknown_event_line
                 (List.filter (fun e => negb (known_event (API := API) e)) codes))%list.

(** The world of a run on a recording handle, seen without the record. *)
Definition erase {J T : Type} (w : World (J * list Fields) T) : World J T :=
  {| reader := {| Journal := fst (Journal (reader w)) |};
     polls := polls w; sink := sink w; logged := logged w |}.

Definition map_outcome {W W' : Type} (f : W -> W') (o : outcome W) : outcome W' :=
  match o with
  | Returned e w => Returned e (f w)
  | Running w => Running (f w)
  end.


(** The world of a run, seen without what it logged. *)
Definition unlogged {J T : Type} (w : World J T) : World J T :=
  {| reader := reader w; polls := polls w; sink := sink w; logged := [] |}.

(** ** A concrete handle *)

Module Store.

(** One record of the log: its fields and its real-time stamp in
    microseconds. *)
Record Entry : Type := { fields : gmap string string; realtime : Z }.

(** Modelled from the spec: the journal handle of journal.go, after
    sections 3, 6 and 8 and the glossary.  [records] is the log, oldest
    first, and [filters] the match filters added so far; the handle
    exposes the records its filters admit ([exposed] below).  [cursor] is
    the index of the current record among the exposed ones: -1 on a
    handle just opened (the first advance yields the first exposed
    record), and their number at the tail, the boundary past the newest
    record.  [fault], when set, is the error every fallible call on the
    handle fails with.  [arrivals] lists what the coming [Wait]s find
    appended to the log. *)
Record State : Type := {
  records : list Entry;
  cursor : Z;
  filters : list string;
  fault : option string;
  arrivals : list (list Entry)
}.

Definition move (c : Z) (s : State) : State :=
  {| records := records s; cursor := c; filters := filters s;
     fault := fault s; arrivals := arrivals s |}.

(** The field name and the value of a filter string [FIELD=value]: what
    stands before and after its first [=]. *)
Definition field_of (m : string) : string :=
  match index 0 "=" m with
  | Some n => substring 0 n m
  | None => m
  end.

Definition value_of (m : string) : string :=
  match index 0 "=" m with
  | Some n => substring (S n) (String.length m - S n) m
  | None => ""
  end.

(** The filter [m] holds of a record that has its field with its value. *)
Definition holds (m : string) (e : Entry) : bool :=
  match fields e !! field_of m with
  | Some v => String.eqb v (value_of m)
  | None => false
  end.

(** Modelled from the spec: which records a set of filters admits.  A
    single filter [FIELD=value] admits the records whose field has that
    value (sections 3 and 8).  For several filters the spec leaves the
    rule to the handle; it is taken as the journal's own: filters on one
    field are alternatives, and a record must pass for every field that
    is filtered on.  No filter admits every record. *)
Definition admits (ms : list string) (e : Entry) : bool :=
  forallb (fun m =>
             existsb (fun m' => String.eqb (field_of m') (field_of m) && holds m' e)
                     ms)
          ms.

(** The records the handle exposes: advancing, seeking and counting go
    over these only. *)
Definition exposed (s : State) : list Entry :=
  List.filter (admits (filters s)) (records s).

Definition size (s : State) : Z := Z.of_nat (List.length (exposed s)).

Definition current (s : State) : option Entry :=
  if 0 <=? cursor s then exposed s !! Z.to_nat (cursor s) else None.

(** A filter string is [FIELD=value] with a field name. *)
Definition well_formed (m : string) : bool :=
  match index 0 "=" m with
  | Some (S _) => true
  | _ => false
  end.

Definition add_match (m : string) (s : State) : status * State :=
  if well_formed m then
    (None, {| records := records s; cursor := cursor s;
              filters := (filters s ++ [m])%list;
              fault := fault s; arrivals := arrivals s |})
  else (Some "failed to add match: invalid argument", s).

Definition guarded {A : Type} (s : State) (k : result A * State)
  : result A * State :=
  match fault s with
  | Some m => (Err m, s)
  | None => k
  end.

Definition seek_tail (s : State) : status * State :=
  match fault s with
  | Some m => (Some m, s)
  | None => (None, move (size s) s)
  end.

(** The cursor lands just before the first record stamped [usec] or
    later. *)
Definition seek_realtime_usec (usec : Z) (s : State) : status * State :=
  match fault s with
  | Some m => (Some m, s)
  | None =>
    let older := List.filter (fun e => realtime e <? usec) (exposed s) in
    (None, move (Z.of_nat (List.length older) - 1) s)
  end.

(** Steps back [n] exposed records, stopping at the first one; reports
    how far it went. *)
Definition previous_skip (n : Z) (s : State) : result Z * State :=
  guarded s
    (let moved := Z.max 0 (Z.min n (cursor s)) in
     (Ok moved, move (cursor s - moved) s)).

(** Advances by one exposed record; at the newest one it reports 0 and
    leaves the cursor alone. *)
Definition next (s : State) : result Z * State :=
  guarded s
    (if cursor s + 1 <? size s then (Ok 1, move (cursor s + 1) s)
     else (Ok 0, s)).

Definition get_data (name : string) (s : State) : result string * State :=
  guarded s
    (match current s with
     | None => (Err "no current entry", s)
     | Some e =>
       match fields e !! name with
       | Some v => (Ok v, s)
       | None => (Err "no such field", s)
       end
     end).

Definition get_data_all (s : State) : result JournalEntry * State :=
  guarded s
    (match current s with
     | None => (Err "no current entry", s)
     | Some e => (Ok (Some (fields e)), s)
     end).

Definition get_realtime_usec (s : State) : result Z * State :=
  guarded s
    (match current s with
     | None => (Err "no current entry", s)
     | Some e => (Ok (realtime e), s)
     end).

(** Reports 1 (append) when records arrived, 0 (no-op) otherwise. *)
Definition wait (d : Z) (s : State) : Z * State :=
  match arrivals s with
  | [] => (0, s)
  | new :: rest =>
    (match new with [] => 0 | _ => 1 end,
     {| records := (records s ++ new)%list; cursor := cursor s;
        filters := filters s; fault := fault s; arrivals := rest |})
  end.

Definition close (s : State) : status * State := (None, s).

(** The handle opened on [disk]. *)
Definition api (disk : result State) : JournalAPI State := {|
  NewJournal := disk;
  AddMatch := add_match;
  SeekRealtimeUsec := seek_realtime_usec;
  SeekTail := seek_tail;
  PreviousSkip := previous_skip;
  Next := next;
  GetData := get_data;
  GetDataAll := get_data_all;
  GetRealtimeUsec := get_realtime_usec;
  Wait := wait;
  Close := close;
  SD_JOURNAL_NOP := 0;
  SD_JOURNAL_APPEND := 1;
  SD_JOURNAL_INVALIDATE := 2
|}.

(** A log just opened, without filters, faults or arrivals. *)
Definition fresh (log : list Entry) : State :=
  {| records := log; cursor := -1; filters := []; fault := None;
     arrivals := [] |}.

Definition broken (m : string) (log : list Entry) : State :=
  {| records := log; cursor := -1; filters := []; fault := Some m;
     arrivals := [] |}.

(** Stand-ins for the Go library, to run the code on examples: an entry
    is rendered as its fields between braces, name and value quoted, and
    an instant as its count of nanoseconds. *)
Definition quote (s : string) : string :=
  let q := String (ascii_of_nat 34) EmptyString in q +:+ s +:+ q.

Definition render (fs : gmap string string) : string :=
  "{" +:+ String.concat ","
            (List.map (fun kv => quote (fst kv) +:+ ":" +:+ quote (snd kv))
                      (map_to_list fs))
      +:+ "}".

Definition golib : GoLib := {|
  json_Marshal e :=
    match e with
    | Some fs => Ok (render fs)
    | None => Ok "null"
    end;
  Time_String ns := pretty ns +:+ "ns";
  time_Now := 1700000000000000000
|}.

(** The handle state of a world. *)
Definition st {T : Type} (w : World State T) : State := Journal (reader w).

(** The [k] records that follow the record of index [a], as entries. *)
Definition slice (a : Z) (k : nat) (l : list Entry) : list JournalEntry :=
  List.map (fun e => Some (fields e)) (take k (drop (Z.to_nat (a + 1)) l)).

(** [ordered w w' k dropped]: from [w] to [w'] the exposed log only grew
    at its end, the sink grew by the [k] exposed records that follow the
    cursor of [w],
    and the cursor moved past them, and past one more record when
    [dropped]; it still stands on a record of the log. *)
Definition ordered (w w' : World State JournalEntry) (k : nat) (dropped : bool)
  : Prop :=
  sink w' = (sink w ++ slice (cursor (st w)) k (exposed (st w')))%list
  /\ exposed (st w) `prefix_of` exposed (st w')
  /\ cursor (st w') = cursor (st w) + Z.of_nat k + (if dropped then 1 else 0)
  /\ cursor (st w') < size (st w').

End Store.

(** ** Sample logs and worlds *)

Module Sample.
Import Store.

Definition hello : Entry :=
  {| fields := {[ "MESSAGE" := "hello" ]}; realtime := 5 |}.
Definition bye : Entry :=
  {| fields := {[ "MESSAGE" := "bye" ]}; realtime := 7 |}.
Definition started : Entry :=
  {| fields := {[ "MESSAGE" := "started"; "UNIT" := "foo.service" ]};
     realtime := 9 |}.
Definition silent : Entry :=
  {| fields := {[ "UNIT" := "foo.service" ]}; realtime := 11 |}.

(** An entry whose message alone is 64 KiB long. *)
Definition long : Entry :=
  {| fields :=
       {[ "MESSAGE" := string_of_list_ascii (repeat "a"%char (Z.to_nat 65536)) ]};
     realtime := 13 |}.

Definition log3 : list Entry := [hello; bye; started].
Definition log2 : list Entry := [hello; bye].

(** The world of a run that starts on handle state [s]. *)
Definition start {J T : Type} (s : J) : World J T :=
  {| reader := {| Journal := s |}; polls := 0; sink := []; logged := [] |}.

Definition never : Ctx := {| deadline := None |}.
Definition fired : Ctx := {| deadline := Some 0%nat |}.
Definition fair : Sched := fun _ => false.

Definition handle : JournalAPI State := api (Ok (fresh log3)).

End Sample.

(** * Properties *)

Section ReaderFacts.
Context {J : Type} `{API : JournalAPI J} `{Lib : GoLib}.

Lemma ReadEntry_unfold (r : JournalReader J) :
  ReadEntry r =
  match Next (Journal r) with
  | (Err e, j1) => ((None, Some (Other e)), {| Journal := j1 |})
  | (Ok c, j1) =>
    if c =? 0 then ((None, Some EOF), {| Journal := j1 |})
    else
      match GetDataAll j1 with
      | (Err e, j2) => ((None, Some (Other e)), {| Journal := j2 |})
      | (Ok m, j2) => ((m, None), {| Journal := j2 |})
      end
  end.
Proof.
  unfold ReadEntry, buildRawMessage, bind, journal, ret.
  destruct (Next (Journal r)) as [[c|e] j1]; cbn; [|reflexivity].
  destruct (c =? 0); [reflexivity|]. cbn.
  destruct (GetDataAll j1) as [[m|e] j2]; reflexivity.
Qed.

Lemma Read_unfold (b : list byte) (r : JournalReader J) :
  Read b r =
  match Next (Journal r) with
  | (Err e, j1) => ((b, 0, Some (Other e)), {| Journal := j1 |})
  | (Ok c, j1) =>
    if c =? 0 then ((b, 0, Some EOF), {| Journal := j1 |})
    else
      match GetDataAll j1 with
      | (Err e, j2) => ((b, 0, Some (Other e)), {| Journal := j2 |})
      | (Ok m, j2) =>
        match json_Marshal m with
        | Err e => ((b, 0, Some (Other e)), {| Journal := j2 |})
        | Ok s =>
          ((copy b (bytes (s +:+ newline)), len (s +:+ newline), None),
           {| Journal := j2 |})
        end
      end
  end.
Proof.
  unfold Read, buildJsonMessage, bind, journal, ret.
  destruct (Next (Journal r)) as [[c|e] j1]; cbn; [|reflexivity].
  destruct (c =? 0); [reflexivity|]. cbn.
  destruct (GetDataAll j1) as [[m|e] j2]; cbn; [|reflexivity].
  destruct (json_Marshal m); reflexivity.
Qed.

(** A read never hands [ErrExpired] to its caller. *)
Lemma ReadEntry_not_expired (r : JournalReader J) :
  snd (fst (ReadEntry r)) <> Some ErrExpired.
Proof.
  rewrite ReadEntry_unfold.
  destruct (Next (Journal r)) as [[c|e] j1]; cbn; [|discriminate].
  destruct (c =? 0); cbn; [discriminate|].
  destruct (GetDataAll j1) as [[m|e] j2]; cbn; discriminate.
Qed.

(** An entry comes with a nil error. *)
Lemma ReadEntry_entry_nil_error (r : JournalReader J) (f : Fields) :
  fst (fst (ReadEntry r)) = Some f -> snd (fst (ReadEntry r)) = None.
Proof.
  rewrite ReadEntry_unfold.
  destruct (Next (Journal r)) as [[c|e] j1]; cbn; [|discriminate].
  destruct (c =? 0); cbn; [discriminate|].
  destruct (GetDataAll j1) as [[m|e] j2]; cbn; [reflexivity|discriminate].
Qed.

(** C7.  [ReadEntry] returns [io.EOF] exactly when [Next] reports no
    data (count 0, no error), and then no entry; when the advance and the
    decoding succeed it returns the decoded entry and a nil error; when
    either fails it returns that error and no entry. *)
Theorem ReadEntry_cases (r : JournalReader J) :
  (snd (fst (ReadEntry r)) = Some EOF <-> fst (Next (Journal r)) = Ok 0)
  /\ (forall j1, Next (Journal r) = (Ok 0, j1) ->
        ReadEntry r = ((None, Some EOF), {| Journal := j1 |}))
  /\ (forall c j1 m j2,
        Next (Journal r) = (Ok c, j1) -> c <> 0 ->
        GetDataAll j1 = (Ok m, j2) ->
        ReadEntry r = ((m, None), {| Journal := j2 |}))
  /\ (forall e j1, Next (Journal r) = (Err e, j1) ->
        ReadEntry r = ((None, Some (Other e)), {| Journal := j1 |}))
  /\ (forall c j1 e j2,
        Next (Journal r) = (Ok c, j1) -> c <> 0 ->
        GetDataAll j1 = (Err e, j2) ->
        ReadEntry r = ((None, Some (Other e)), {| Journal := j2 |})).
Proof.
  rewrite ReadEntry_unfold.
  repeat split.
  - destruct (Next (Journal r)) as [[c|e] j1]; cbn; [|discriminate].
    destruct (Z.eqb_spec c 0) as [->|Hc]; [reflexivity|].
    destruct (GetDataAll j1) as [[m|e] j2]; cbn; discriminate.
  - destruct (Next (Journal r)) as [[c|e] j1]; cbn; [|discriminate].
    intros [= ->]. reflexivity.
  - intros j1 ->. reflexivity.
  - intros c j1 m j2 -> Hc ->.
    destruct (Z.eqb_spec c 0); [contradiction|reflexivity].
  - intros e j1 ->. reflexivity.
  - intros c j1 e j2 -> Hc ->.
    destruct (Z.eqb_spec c 0); [contradiction|reflexivity].
Qed.

End ReaderFacts.

Section FollowFacts.
Context {J : Type} `{API : JournalAPI J} `{Lib : GoLib}.

Implicit Types (ctx : Ctx) (sched : Sched).

Lemma Done_mono ctx (k k' : nat) :
  (k <= k')%nat -> Done ctx k = true -> Done ctx k' = true.
Proof.
  unfold Done. destruct (deadline ctx) as [d|]; [|discriminate].
  intros Hk Hd. apply Nat.leb_le in Hd. apply Nat.leb_le. lia.
Qed.

(** The tail of a turn never writes to the sink. *)
Lemma await_sink {T : Type} d ctx sched (w : World J T) :
  sink (snd (await d ctx sched w)) = sink w.
Proof.
  unfold await, journal.
  destruct (Done ctx (polls w) && negb (sched (polls w))); [reflexivity|].
  cbn. destruct (Wait d (Journal (reader w))) as [e j]. cbn.
  destruct ((e =? SD_JOURNAL_NOP) || (e =? SD_JOURNAL_APPEND)
            || (e =? SD_JOURNAL_INVALIDATE)); reflexivity.
Qed.

(** It returns nothing but [ErrExpired]. *)
Lemma await_flow {T : Type} d ctx sched (w : World J T) :
  fst (await d ctx sched w) = Continue
  \/ fst (await d ctx sched w) = Return (Some ErrExpired).
Proof.
  unfold await, journal.
  destruct (Done ctx (polls w) && negb (sched (polls w))); [right; reflexivity|].
  cbn. destruct (Wait d (Journal (reader w))) as [e j]. left. reflexivity.
Qed.

(** *** One turn, case by case *)

Lemma FollowJournal_turn_fatal ctx sched (w : World J JournalEntry) :
  fatal (snd (fst (ReadEntry (reader w)))) = true ->
  FollowJournal_turn ctx sched w
  = (Break, with_reader (snd (ReadEntry (reader w))) w).
Proof.
  unfold FollowJournal_turn.
  destruct (ReadEntry (reader w)) as [[msg err] r]. cbn.
  intros ->. reflexivity.
Qed.

Lemma FollowJournal_turn_fired ctx sched (w : World J JournalEntry) :
  fatal (snd (fst (ReadEntry (reader w)))) = false ->
  Done ctx (polls w) = true ->
  FollowJournal_turn ctx sched w
  = (Return (Some ErrExpired),
     poll (with_reader (snd (ReadEntry (reader w))) w)).
Proof.
  unfold FollowJournal_turn.
  destruct (ReadEntry (reader w)) as [[msg err] r]. cbn.
  intros -> ->. reflexivity.
Qed.

Lemma Follow_turn_fatal ctx sched (w : World J (list byte)) :
  let buf := make (Z.shiftl (64 * 1) 10) in
  fatal (snd (fst (Read buf (reader w)))) = true ->
  Follow_turn ctx sched w = (Break, with_reader (snd (Read buf (reader w))) w).
Proof.
  cbv zeta. unfold Follow_turn.
  destruct (Read _ (reader w)) as [[[msg c] err] r]. cbn.
  intros ->. reflexivity.
Qed.

Lemma Follow_turn_fired ctx sched (w : World J (list byte)) :
  let buf := make (Z.shiftl (64 * 1) 10) in
  fatal (snd (fst (Read buf (reader w)))) = false ->
  Done ctx (polls w) = true ->
  Follow_turn ctx sched w
  = (Return (Some ErrExpired), poll (with_reader (snd (Read buf (reader w))) w)).
Proof.
  cbv zeta. unfold Follow_turn.
  destruct (Read _ (reader w)) as [[[msg c] err] r]. cbn.
  intros -> ->. reflexivity.
Qed.

(** *** Runs *)

(** A run of [a + b] turns is a run of [a] turns followed, when the loop
    has not returned, by a run of [b] turns. *)
Lemma FollowJournal_add ctx sched (a b : nat) (w : World J JournalEntry) :
  FollowJournal ctx sched (a + b) w =
  match FollowJournal ctx sched a w with
  | Running w' => FollowJournal ctx sched b w'
  | Returned e w' => Returned e w'
  end.
Proof.
  revert w. induction a as [|a IH]; intros w; [reflexivity|].
  cbn [Nat.add FollowJournal].
  destruct (FollowJournal_turn ctx sched w) as [[| |e] w']; auto.
Qed.

Lemma Follow_add ctx sched (a b : nat) (w : World J (list byte)) :
  Follow ctx sched (a + b) w =
  match Follow ctx sched a w with
  | Running w' => Follow ctx sched b w'
  | Returned e w' => Returned e w'
  end.
Proof.
  revert w. induction a as [|a IH]; intros w; [reflexivity|].
  cbn [Nat.add Follow].
  destruct (Follow_turn ctx sched w) as [[| |e] w']; auto.
Qed.

(** Once the channel is found closed, a run is over within its first
    turn and the sink is as it was. *)
Lemma FollowJournal_fired_sink ctx sched (n : nat) (w : World J JournalEntry) :
  Done ctx (polls w) = true ->
  sink (world_of (FollowJournal ctx sched n w)) = sink w.
Proof.
  intros Hd. destruct n as [|n]; [reflexivity|]. cbn [FollowJournal].
  destruct (fatal (snd (fst (ReadEntry (reader w))))) eqn:Hf.
  - rewrite FollowJournal_turn_fatal by assumption. reflexivity.
  - rewrite FollowJournal_turn_fired by assumption. reflexivity.
Qed.

Lemma Follow_fired_sink ctx sched (n : nat) (w : World J (list byte)) :
  Done ctx (polls w) = true ->
  sink (world_of (Follow ctx sched n w)) = sink w.
Proof.
  intros Hd. destruct n as [|n]; [reflexivity|]. cbn [Follow].
  destruct (fatal (snd (fst (Read (make (Z.shiftl (64 * 1) 10))
                                  (reader w))))) eqn:Hf.
  - rewrite Follow_turn_fatal by assumption. reflexivity.
  - rewrite Follow_turn_fired by assumption. reflexivity.
Qed.

End FollowFacts.

(** ** Read errors in the follow loops *)

Section ReadErrors.
Context {J : Type} `{API : JournalAPI J} `{Lib : GoLib}.

(** A read error that is not [io.EOF] ends [FollowJournal] within the
    turn, before anything is written; what the caller gets is nil. *)
Lemma FollowJournal_fatal ctx sched (n : nat) (w : World J JournalEntry) :
  fatal (snd (fst (ReadEntry (reader w)))) = true ->
  FollowJournal ctx sched (S n) w
  = Returned None (with_reader (snd (ReadEntry (reader w))) w).
Proof.
  intros Hf. cbn [FollowJournal].
  rewrite FollowJournal_turn_fatal by assumption. reflexivity.
Qed.

Lemma Follow_fatal ctx sched (n : nat) (w : World J (list byte)) :
  fatal (snd (fst (Read (make (Z.shiftl (64 * 1) 10)) (reader w)))) = true ->
  Follow ctx sched (S n) w
  = Returned None
      (with_reader (snd (Read (make (Z.shiftl (64 * 1) 10)) (reader w))) w).
Proof.
  intros Hf. cbn [Follow].
  rewrite Follow_turn_fatal by assumption. reflexivity.
Qed.

End ReadErrors.

(** C1.  On a handle whose [Next] fails with "EIO", [ReadEntry] and [Read]
    report that error, and both follow loops end within their first turn
    with nothing written; the value they return is nil, not the error. *)
Theorem follow_read_error_returns_nil :
  let api := Store.api (Ok (Store.fresh Sample.log3)) in
  let s := Store.broken "EIO" Sample.log3 in
  fst (ReadEntry (API := api) {| Journal := s |}) = (None, Some (Other "EIO"))
  /\ FollowJournal (API := api) Sample.never Sample.fair 1 (Sample.start s)
     = Returned None (Sample.start s)
  /\ snd (fst (Read (API := api) (Lib := Store.golib) (make 65536) {| Journal := s |}))
     = Some (Other "EIO")
  /\ Follow (API := api) (Lib := Store.golib) Sample.never Sample.fair 1
       (Sample.start s)
     = Returned None (Sample.start s).
Proof.
  cbv zeta. split; [reflexivity|]. split; [|split; [reflexivity|]].
  - rewrite FollowJournal_fatal by reflexivity. reflexivity.
  - rewrite Follow_fatal by reflexivity. reflexivity.
Qed.

(** ** Cancellation *)

(** C2, as stated, fails: with the channel already closed and a handle
    whose [Next] fails, neither loop returns [ErrExpired]; the read error
    ends the turn before the channel is looked at. *)
Lemma fired_read_error_not_ErrExpired :
  let api := Store.api (Ok (Store.fresh Sample.log3)) in
  let s := Store.broken "EIO" Sample.log3 in
  Done Sample.fired 0 = true
  /\ returned (FollowJournal (API := api) Sample.fired Sample.fair 1
                 (Sample.start s)) <> Some (Some ErrExpired)
  /\ returned (Follow (API := api) (Lib := Store.golib) Sample.fired
                 Sample.fair 1 (Sample.start s)) <> Some (Some ErrExpired).
Proof.
  cbv zeta. split; [reflexivity|]. split.
  - rewrite FollowJournal_fatal by reflexivity. discriminate.
  - rewrite Follow_fatal by reflexivity. discriminate.
Qed.

Section Cancellation.
Context {J : Type} `{API : JournalAPI J} `{Lib : GoLib}.

(** C2.  In both loops the look at [ctx.Done()] comes before the write:
    from the moment the channel is found closed nothing more is written
    to the sink, however many turns follow and whatever the log still
    holds; and a run that enters a turn with the channel closed returns
    [ErrExpired] in that turn, unless the read of that turn fails with an
    error other than [io.EOF]. *)
Theorem no_emission_after_cancellation (ctx : Ctx) (sched : Sched) :
  (forall (a b : nat) (w : World J JournalEntry),
      Done ctx (polls (world_of (FollowJournal ctx sched a w))) = true ->
      sink (world_of (FollowJournal ctx sched (a + b) w))
      = sink (world_of (FollowJournal ctx sched a w)))
  /\ (forall (n : nat) (w : World J JournalEntry),
      Done ctx (polls w) = true ->
      fatal (snd (fst (ReadEntry (reader w)))) = false ->
      returned (FollowJournal ctx sched (S n) w) = Some (Some ErrExpired))
  /\ (forall (a b : nat) (w : World J (list byte)),
      Done ctx (polls (world_of (Follow ctx sched a w))) = true ->
      sink (world_of (Follow ctx sched (a + b) w))
      = sink (world_of (Follow ctx sched a w)))
  /\ (forall (n : nat) (w : World J (list byte)),
      Done ctx (polls w) = true ->
      fatal (snd (fst (Read (make (Z.shiftl (64 * 1) 10)) (reader w)))) = false ->
      returned (Follow ctx sched (S n) w) = Some (Some ErrExpired)).
Proof.
  split; [|split; [|split]].
  - intros a b w Hd. rewrite FollowJournal_add.
    destruct (FollowJournal ctx sched a w) as [e w'|w']; [reflexivity|].
    apply FollowJournal_fired_sink. exact Hd.
  - intros n w Hd Hf. cbn [FollowJournal].
    rewrite FollowJournal_turn_fired by assumption. reflexivity.
  - intros a b w Hd. rewrite Follow_add.
    destruct (Follow ctx sched a w) as [e w'|w']; [reflexivity|].
    apply Follow_fired_sink. exact Hd.
  - intros n w Hd Hf. cbn [Follow].
    rewrite Follow_turn_fired by assumption. reflexivity.
Qed.

End Cancellation.

(** C2 at work: the channel closes after one look; one entry is written,
    the two that are still in the log never are, and the loop returns
    [ErrExpired] in its second turn. *)
Lemma no_emission_after_cancellation_witness :
  let ctx := {| deadline := Some 1%nat |} in
  let w : World Store.State JournalEntry := Sample.start (Store.fresh Sample.log3) in
  sink (world_of (FollowJournal (API := Sample.handle) ctx Sample.fair (1 + 3) w))
  = [Some (Store.fields Sample.hello)]
  /\ returned (FollowJournal (API := Sample.handle) ctx Sample.fair 2 w)
     = Some (Some ErrExpired).
Proof.
  cbv zeta.
  destruct (no_emission_after_cancellation (API := Sample.handle)
              (Lib := Store.golib) {| deadline := Some 1%nat |} Sample.fair)
    as (Hsink & Hret & _).
  split.
  - rewrite Hsink by reflexivity. reflexivity.
  - change 2%nat with (1 + 1)%nat. rewrite FollowJournal_add.
    apply (Hret 0%nat); reflexivity.
Defined.

(** ** Order of emission *)

Section Ordering.
Context {J : Type} (API : JournalAPI J).

(** A read on the recording handle is the read on the handle itself; the
    record grows by the entry handed out, if any. *)
Lemma ReadEntry_recording (j : J) (h : list Fields) :
  ReadEntry (API := recording API) {| Journal := (j, h) |} =
  let '((msg, err), r) := ReadEntry (API := API) {| Journal := j |} in
  ((msg, err),
   {| Journal := (Journal r,
                  match msg with
                  | Some f => (h ++ [f])%list
                  | None => h
                  end) |}).
Proof.
  rewrite !ReadEntry_unfold. cbn. unfold lift. cbn.
  destruct (Next j) as [[c|e] j1]; cbn; [|reflexivity].
  destruct (c =? 0); [reflexivity|].
  destruct (GetDataAll j1) as [[[f|]|e] j2]; reflexivity.
Qed.




(** The record changes nothing to a run. *)
Lemma await_erase {T : Type} d ctx sched (w : World (J * list Fields) T) :
  await (API := API) d ctx sched (erase w)
  = (fst (await (API := recording API) d ctx sched w),
     erase (snd (await (API := recording API) d ctx sched w))).
Proof.
  unfold await, journal. cbn. unfold lift.
  destruct (Done ctx (polls w) && negb (sched (polls w))); [reflexivity|].
  destruct (Wait d (fst (Journal (reader w)))) as [e j]. cbn.
  destruct ((e =? SD_JOURNAL_NOP) || (e =? SD_JOURNAL_APPEND)
            || (e =? SD_JOURNAL_INVALIDATE)); reflexivity.
Qed.

Lemma FollowJournal_turn_erase ctx sched (w : World (J * list Fields) JournalEntry) :
  FollowJournal_turn (API := API) ctx sched (erase w)
  = (fst (FollowJournal_turn (API := recording API) ctx sched w),
     erase (snd (FollowJournal_turn (API := recording API) ctx sched w))).
Proof.
  unfold FollowJournal_turn.
  destruct w as [[[j h]] k out lg]. cbn [reader erase Journal fst].
  rewrite ReadEntry_recording.
  destruct (ReadEntry {| Journal := j |}) as [[msg err] [j']].
  destruct (fatal err); [reflexivity|].
  cbn -[await Z.mul].
  destruct (Done ctx k); [reflexivity|].
  destruct msg as [f|]; [reflexivity|].
  match goal with
  | |- _ = (fst (await _ _ _ ?w1), _) =>
    rewrite <- (await_erase (100 * Millisecond) ctx sched w1)
  end.
  reflexivity.
Qed.

Lemma FollowJournal_erase ctx sched (turns : nat)
    (w : World (J * list Fields) JournalEntry) :
  FollowJournal (API := API) ctx sched turns (erase w)
  = map_outcome erase (FollowJournal (API := recording API) ctx sched turns w).
Proof.
  revert w. induction turns as [|n IH]; intros w; [reflexivity|].
  cbn [FollowJournal]. rewrite FollowJournal_turn_erase.
  destruct (FollowJournal_turn ctx sched w) as [[| |e] w']; cbn [fst snd];
    [apply IH|reflexivity|reflexivity].
Qed.


End Ordering.

(** ** Order of emission on the store *)

Section StoreOrder.
Import Store.
Variable disk : result State.

#[local] Arguments exposed : simpl never.

(** Moving the cursor of [s] does not change what is exposed. *)
Ltac same_exposed s :=
  repeat match goal with
         | |- context [exposed ?t] =>
           lazymatch t with
           | s => fail
           | _ => change (exposed t) with (exposed s)
           end
         end.

Lemma ReadEntry_store (s : State) :
  fault s = None -> -1 <= cursor s ->
  ReadEntry (API := api disk) {| Journal := s |} =
  if cursor s + 1 <? size s then
    match exposed s !! Z.to_nat (cursor s + 1) with
    | Some e => ((Some (fields e), None), {| Journal := move (cursor s + 1) s |})
    | None => ((None, Some (Other "no current entry")), {| Journal := move (cursor s + 1) s |})
    end
  else ((None, Some EOF), {| Journal := s |}).
Proof.
  intros Hf Hc. rewrite ReadEntry_unfold. cbn. unfold next, guarded. rewrite Hf.
  destruct (cursor s + 1 <? size s); [|reflexivity]. cbn.
  unfold get_data_all, guarded, current. cbn [fault move cursor]. rewrite Hf.
  destruct (Z.leb_spec 0 (cursor s + 1)); [|lia].
  change (exposed (move (cursor s + 1) s)) with (exposed s).
  destruct (exposed s !! Z.to_nat (cursor s + 1)); reflexivity.
Qed.

Lemma ReadEntry_store_fault (s : State) (m : string) :
  fault s = Some m ->
  ReadEntry (API := api disk) {| Journal := s |} = ((None, Some (Other m)), {| Journal := s |}).
Proof.
  intros Hf. rewrite ReadEntry_unfold. cbn. unfold next, guarded. rewrite Hf. reflexivity.
Qed.

Lemma await_store {T} d ctx sched (w : World State T) :
  let w' := snd (await (API := api disk) d ctx sched w) in
  sink w' = sink w /\ exposed (st w) `prefix_of` exposed (st w')
  /\ cursor (st w') = cursor (st w).
Proof.
  cbv zeta. rewrite await_sink. split; [reflexivity|].
  unfold await, journal, st. cbn -[exposed].
  destruct (Done ctx (polls w) && negb (sched (polls w)));
    [cbn -[exposed]; split; reflexivity|].
  unfold wait. destruct (reader w) as [s]. cbn -[exposed].
  destruct (arrivals s) as [|new rest]; cbn -[exposed].
  - split; reflexivity.
  - repeat match goal with |- context [if ?b then _ else _] => destruct b end;
      cbn -[exposed]; (split; [|reflexivity]);
      unfold exposed; cbn [records filters]; rewrite List.filter_app;
      apply prefix_app_r; reflexivity.
Qed.

Lemma slice_stable (a : Z) (k : nat) (l ext : list Entry) :
  -1 <= a -> a + Z.of_nat k < Z.of_nat (List.length l) ->
  slice a k (l ++ ext) = slice a k l.
Proof.
  intros Ha Hk. unfold slice. f_equal.
  rewrite drop_app_le by lia.
  apply take_app_le. rewrite length_drop. lia.
Qed.

Lemma slice_add (a : Z) (k1 k2 : nat) (l : list Entry) :
  -1 <= a ->
  slice a (k1 + k2) l = (slice a k1 l ++ slice (a + Z.of_nat k1) k2 l)%list.
Proof.
  intros Ha. unfold slice. rewrite <- List.map_app. f_equal.
  rewrite <- take_take_drop, drop_drop. do 3 f_equal. lia.
Qed.

Lemma slice_one (a : Z) (l : list Entry) (e : Entry) :
  l !! Z.to_nat (a + 1) = Some e -> slice a 1 l = [Some (fields e)].
Proof. intros He. unfold slice. rewrite (drop_S _ _ _ He). reflexivity. Qed.

Lemma ordered_trans (w w1 w' : World State JournalEntry) (k1 k2 : nat) (d : bool) :
  -1 <= cursor (st w) ->
  ordered w w1 k1 false -> ordered w1 w' k2 d -> ordered w w' (k1 + k2) d.
Proof.
  unfold ordered. intros Hc (Hs1 & Hp1 & Hc1 & Hb1) (Hs2 & Hp2 & Hc2 & Hb2).
  destruct Hp2 as [ext Hext].
  split; [|split; [|split]].
  - rewrite Hs2, Hs1, slice_add, Hc1, Hext, <- app_assoc by exact Hc.
    rewrite (slice_stable (cursor (st w)) k1) by (unfold size in Hb1; lia).
    do 3 f_equal. lia.
  - etransitivity; [exact Hp1|]. exists ext. exact Hext.
  - rewrite Hc2, Hc1. lia.
  - exact Hb2.
Qed.

Lemma FollowJournal_turn_store ctx sched (w : World State JournalEntry) :
  -1 <= cursor (st w) < size (st w) ->
  let t := FollowJournal_turn (API := api disk) ctx sched w in
  exists k dropped,
    ordered w (snd t) k dropped
    /\ (dropped = true -> fst t = Return (Some ErrExpired)).
Proof.
  intros Hc. cbv zeta. unfold FollowJournal_turn.
  destruct w as [[s] p out lg]. unfold st in Hc. cbn in Hc. cbn [reader].
  destruct (fault s) as [m|] eqn:Hf.
  { rewrite (ReadEntry_store_fault s m Hf). cbn.
    exists 0%nat, false. unfold ordered, st, slice. cbn.
    rewrite app_nil_r. split; [|discriminate].
    split; [reflexivity|]. split; [reflexivity|]. split; lia. }
  rewrite ReadEntry_store by (auto; lia).
  destruct (Z.ltb_spec (cursor s + 1) (size s)) as [Hlt|Hge].
  - destruct (lookup_lt_is_Some_2 (exposed s) (Z.to_nat (cursor s + 1))) as [e He].
    { unfold size in Hlt. lia. }
    rewrite He. cbn. destruct (Done ctx p).
    + exists 0%nat, true. unfold ordered, st, slice. cbn. same_exposed s.
      rewrite app_nil_r. split; [|reflexivity].
      split; [reflexivity|]. split; [reflexivity|]. split; [lia|exact Hlt].
    + exists 1%nat, false. unfold ordered, st. cbn. same_exposed s.
      rewrite (slice_one _ _ _ He). split; [|discriminate].
      split; [reflexivity|]. split; [reflexivity|]. split; [lia|exact Hlt].
  - cbn. destruct (Done ctx p).
    + exists 0%nat, false. unfold ordered, st, slice. cbn.
      rewrite app_nil_r. split; [|discriminate].
      split; [reflexivity|]. split; [reflexivity|]. split; lia.
    + exists 0%nat, false. split; [|discriminate].
      match goal with
      | |- ordered _ (snd (await _ _ _ ?w1)) _ _ =>
        destruct (await_store (100 * Millisecond) ctx sched w1) as (Hs & Hp & Hcur)
      end.
      unfold ordered, slice. rewrite Hs. cbn. rewrite app_nil_r.
      split; [reflexivity|]. split; [exact Hp|].
      unfold st in *. cbn in Hcur. split; [rewrite Hcur; cbn; lia|].
      rewrite Hcur. cbn. destruct Hp as [ext Hext].
      unfold size. cbn in Hext. rewrite Hext, length_app. unfold size in Hc. lia.
Qed.

(** On the store, what a run of [FollowJournal] adds to the sink is a run
    of consecutive exposed records of the log, in log order, starting right after
    the cursor the run began with and ending at the cursor it stands on
    (or one before, when the last turn found the channel closed). *)
Lemma FollowJournal_store_order ctx sched (turns : nat)
    (w : World State JournalEntry) :
  -1 <= cursor (st w) < size (st w) ->
  let o := FollowJournal (API := api disk) ctx sched turns w in
  exists k dropped,
    ordered w (world_of o) k dropped
    /\ (dropped = true -> returned o = Some (Some ErrExpired)).
Proof.
  cbv zeta. revert w. induction turns as [|n IH]; intros w Hc.
  { exists 0%nat, false. unfold ordered, slice. cbn. rewrite app_nil_r.
    split; [|discriminate].
    split; [reflexivity|]. split; [reflexivity|]. split; lia. }
  cbn [FollowJournal].
  destruct (FollowJournal_turn_store ctx sched w Hc) as (k1 & d1 & Ho & Hd).
  cbv zeta in Ho, Hd.
  destruct (FollowJournal_turn ctx sched w) as [[| |e] w1]; cbn [fst snd] in Ho, Hd.
  - destruct d1; [discriminate (Hd eq_refl)|].
    assert (Hc1 : -1 <= cursor (st w1) < size (st w1)).
    { destruct Ho as (_ & _ & Hcur & Hb). lia. }
    destruct (IH w1 Hc1) as (k2 & d2 & Ho2 & Hd2).
    exists (k1 + k2)%nat, d2. split; [|exact Hd2].
    apply (ordered_trans w w1); [lia|exact Ho|exact Ho2].
  - destruct d1; [discriminate (Hd eq_refl)|].
    exists k1, false. split; [exact Ho|discriminate].
  - exists k1, d1. split; [exact Ho|]. intros Hd1. cbn.
    specialize (Hd Hd1). congruence.
Qed.

End StoreOrder.

(** ** Event codes *)

Section EventCodes.
Context {J : Type} (API : JournalAPI J) `{Lib : GoLib} (g : Z -> J -> Z).

Lemma ReadEntry_with_event (r : JournalReader J) :
  ReadEntry (API := with_event API g) r = ReadEntry (API := API) r.
Proof. reflexivity. Qed.

Lemma Read_with_event (b : list byte) (r : JournalReader J) :
  Read (API := with_event API g) b r = Read (API := API) b r.
Proof. reflexivity. Qed.

(** Closes a goal that compares two worlds, or two turns, that differ in
    their log lines only. *)
Ltac same_world Hp Hs := cbn; unfold unlogged; cbn; rewrite Hp, Hs; auto.

Lemma unlogged_inv {T : Type} (w1 w2 : World J T) :
  unlogged w1 = unlogged w2 ->
  reader w1 = reader w2 /\ polls w1 = polls w2 /\ sink w1 = sink w2.
Proof.
  destruct w1, w2. unfold unlogged. cbn. intros [= -> -> ->]. auto.
Qed.

(** Whatever code [Wait] reports, the tail of a turn goes the same way and
    leaves the same world, up to the log lines. *)
Lemma await_with_event {T : Type} d ctx sched (w1 w2 : World J T) :
  unlogged w1 = unlogged w2 ->
  fst (await (API := with_event API g) d ctx sched w1)
  = fst (await (API := API) d ctx sched w2)
  /\ unlogged (snd (await (API := with_event API g) d ctx sched w1))
     = unlogged (snd (await (API := API) d ctx sched w2)).
Proof.
  intros H. destruct (unlogged_inv _ _ H) as (Hr & Hp & Hs).
  unfold await, journal. cbn. rewrite Hr, Hp.
  destruct (Done ctx (polls w2) && negb (sched (polls w2))).
  { cbn. unfold unlogged. cbn. rewrite Hr, Hp, Hs. auto. }
  destruct (Wait d (Journal (reader w2))) as [e j]. cbn.
  destruct ((g d (Journal (reader w2)) =? SD_JOURNAL_NOP)
            || (g d (Journal (reader w2)) =? SD_JOURNAL_APPEND)
            || (g d (Journal (reader w2)) =? SD_JOURNAL_INVALIDATE));
    destruct ((e =? SD_JOURNAL_NOP) || (e =? SD_JOURNAL_APPEND)
              || (e =? SD_JOURNAL_INVALIDATE));
    same_world Hp Hs.
Qed.

Lemma FollowJournal_turn_with_event ctx sched (w1 w2 : World J JournalEntry) :
  unlogged w1 = unlogged w2 ->
  fst (FollowJournal_turn (API := with_event API g) ctx sched w1)
  = fst (FollowJournal_turn (API := API) ctx sched w2)
  /\ unlogged (snd (FollowJournal_turn (API := with_event API g) ctx sched w1))
     = unlogged (snd (FollowJournal_turn (API := API) ctx sched w2)).
Proof.
  intros H. destruct (unlogged_inv _ _ H) as (Hr & Hp & Hs).
  unfold FollowJournal_turn. rewrite ReadEntry_with_event, Hr.
  destruct (ReadEntry (reader w2)) as [[msg err] r].
  destruct (fatal err).
  { same_world Hp Hs. }
  cbn [with_reader polls]. rewrite Hp.
  destruct (Done ctx (polls w2)).
  { same_world Hp Hs. }
  destruct msg as [f|].
  { same_world Hp Hs. }
  apply await_with_event. unfold unlogged. cbn. rewrite Hp, Hs. reflexivity.
Qed.

Lemma Follow_turn_with_event ctx sched (w1 w2 : World J (list byte)) :
  unlogged w1 = unlogged w2 ->
  fst (Follow_turn (API := with_event API g) ctx sched w1)
  = fst (Follow_turn (API := API) ctx sched w2)
  /\ unlogged (snd (Follow_turn (API := with_event API g) ctx sched w1))
     = unlogged (snd (Follow_turn (API := API) ctx sched w2)).
Proof.
  intros H. destruct (unlogged_inv _ _ H) as (Hr & Hp & Hs).
  unfold Follow_turn. rewrite Read_with_event, Hr.
  destruct (Read _ (reader w2)) as [[[msg c] err] r].
  destruct (fatal err).
  { same_world Hp Hs. }
  cbn [with_reader polls]. rewrite Hp.
  destruct (Done ctx (polls w2)).
  { same_world Hp Hs. }
  destruct (0 <? c).
  { same_world Hp Hs. }
  apply await_with_event. unfold unlogged. cbn. rewrite Hp, Hs. reflexivity.
Qed.

Lemma FollowJournal_with_event ctx sched (turns : nat) (w1 w2 : World J JournalEntry) :
  unlogged w1 = unlogged w2 ->
  map_outcome unlogged (FollowJournal (API := with_event API g) ctx sched turns w1)
  = map_outcome unlogged (FollowJournal (API := API) ctx sched turns w2).
Proof.
  revert w1 w2. induction turns as [|n IH]; intros w1 w2 H.
  { cbn. rewrite H. reflexivity. }
  cbn [FollowJournal].
  destruct (FollowJournal_turn_with_event ctx sched w1 w2 H) as [Hf Hw].
  destruct (FollowJournal_turn ctx sched w1) as [f1 w1'].
  destruct (FollowJournal_turn ctx sched w2) as [f2 w2'].
  cbn [fst snd] in Hf, Hw. subst f2.
  destruct f1 as [| |e]; cbn [map_outcome]; [apply IH; exact Hw| |];
    rewrite Hw; reflexivity.
Qed.

Lemma Follow_with_event ctx sched (turns : nat) (w1 w2 : World J (list byte)) :
  unlogged w1 = unlogged w2 ->
  map_outcome unlogged (Follow (API := with_event API g) ctx sched turns w1)
  = map_outcome unlogged (Follow (API := API) ctx sched turns w2).
Proof.
  revert w1 w2. induction turns as [|n IH]; intros w1 w2 H.
  { cbn. rewrite H. reflexivity. }
  cbn [Follow].
  destruct (Follow_turn_with_event ctx sched w1 w2 H) as [Hf Hw].
  destruct (Follow_turn ctx sched w1) as [f1 w1'].
  destruct (Follow_turn ctx sched w2) as [f2 w2'].
  cbn [fst snd] in Hf, Hw. subst f2.
  destruct f1 as [| |e]; cbn [map_outcome]; [apply IH; exact Hw| |];
    rewrite Hw; reflexivity.
Qed.

(** Whatever code [Wait] reports, the [events] case of the tail of a turn
    goes back to the top of the loop: it takes the handle as [Wait] left
    it, logs the code when it is none of the three known ones, and
    continues. *)
Lemma await_continues {T : Type} d ctx sched (w : World J T) :
  Done ctx (polls w) && negb (sched (polls w)) = false ->
  await (API := with_event API g) d ctx sched w
  = (Continue,
     let e := g d (Journal (reader w)) in
     let w' := with_reader {| Journal := snd (Wait d (Journal (reader w))) |}
                           (poll w) in
     if known_event (API := API) e then w'
     else log_Printf (unknown_event_line e) w').
Proof.
  intros H. unfold await, journal. rewrite H. cbn.
  destruct (Wait d (Journal (reader w))) as [e0 j]. reflexivity.
Qed.

(** C6.  Whatever event code [Wait] reports, known or unknown, the turn
    goes the same way: the [events] case of the wait phase always ends the
    turn in [continue process], with the handle as [Wait] left it, nothing
    written, and at most a log line for an unknown code; so a turn that
    finds the tail with the channel open goes back to reading.  And two
    runs that differ only in the event codes reported go through the same
    turns: they return the same value or are both still running, and they
    leave the same handle state, the same number of looks at the channel
    and the same sink.  Only the lines given to [log.Printf] may
    differ. *)
Theorem event_code_irrelevant (ctx : Ctx) (sched : Sched) (turns : nat) :
  (forall w : World J JournalEntry,
      map_outcome unlogged
        (FollowJournal (API := with_event API g) ctx sched turns w)
      = map_outcome unlogged (FollowJournal (API := API) ctx sched turns w))
  /\ (forall w : World J (list byte),
      map_outcome unlogged (Follow (API := with_event API g) ctx sched turns w)
      = map_outcome unlogged (Follow (API := API) ctx sched turns w))
  /\ (forall (T : Type) (d : Z) (w : World J T),
      Done ctx (polls w) && negb (sched (polls w)) = false ->
      await (API := with_event API g) d ctx sched w
      = (Continue,
         let e := g d (Journal (reader w)) in
         let w' := with_reader {| Journal := snd (Wait d (Journal (reader w))) |}
                               (poll w) in
         if known_event (API := API) e then w'
         else log_Printf (unknown_event_line e) w'))
  /\ (forall w : World J JournalEntry,
      fatal (snd (fst (ReadEntry (reader w)))) = false ->
      fst (fst (ReadEntry (reader w))) = None ->
      Done ctx (polls w) = false ->
      Done ctx (S (polls w)) && negb (sched (S (polls w))) = false ->
      fst (FollowJournal_turn (API := with_event API g) ctx sched w) = Continue
      /\ unlogged (snd (FollowJournal_turn (API := with_event API g) ctx sched w))
         = unlogged
             {| reader :=
                  {| Journal :=
                       snd (Wait (100 * Millisecond)
                              (Journal (snd (ReadEntry (reader w))))) |};
                polls := S (S (polls w)); sink := sink w; logged := logged w |})
  /\ (forall w : World J (list byte),
      let read := Read (make (Z.shiftl (64 * 1) 10)) (reader w) in
      fatal (snd (fst read)) = false ->
      (0 <? snd (fst (fst read))) = false ->
      Done ctx (polls w) = false ->
      Done ctx (S (polls w)) && negb (sched (S (polls w))) = false ->
      fst (Follow_turn (API := with_event API g) ctx sched w) = Continue
      /\ unlogged (snd (Follow_turn (API := with_event API g) ctx sched w))
         = unlogged
             {| reader :=
                  {| Journal :=
                       snd (Wait (1 * Second) (Journal (snd read))) |};
                polls := S (S (polls w)); sink := sink w; logged := logged w |}).
Proof.
  split; [|split; [|split; [|split]]].
  - intros w. apply FollowJournal_with_event. reflexivity.
  - intros w. apply Follow_with_event. reflexivity.
  - intros T d w. apply await_continues.
  - intros w Hf Hm HD HE. unfold FollowJournal_turn.
    rewrite ReadEntry_with_event.
    destruct (ReadEntry (reader w)) as [[msg err] r]. cbn [fst snd] in *.
    subst msg. rewrite Hf. cbn [with_reader polls]. rewrite HD.
    rewrite await_continues by exact HE. cbn [fst snd].
    split; [reflexivity|]. cbv zeta.
    destruct (known_event _); reflexivity.
  - intros w. cbv zeta. intros Hf Hc HD HE. unfold Follow_turn.
    rewrite Read_with_event.
    destruct (Read _ (reader w)) as [[[msg c] err] r]. cbn [fst snd] in *.
    rewrite Hf, Hc. cbn [with_reader polls]. rewrite HD.
    rewrite await_continues by exact HE. cbn [fst snd].
    split; [reflexivity|]. cbv zeta.
    destruct (known_event _); reflexivity.
Qed.

End EventCodes.

(** C6 at work: an empty log, an open channel, and a [Wait] that reports
    the unknown code 7; the turn finds the tail, waits, and goes back to
    the top of the loop. *)
Lemma event_code_irrelevant_witness :
  let odd := with_event Sample.handle (fun _ _ => 7) in
  let w : World Store.State JournalEntry := Sample.start (Store.fresh []) in
  fst (FollowJournal_turn (API := odd) Sample.never Sample.fair w) = Continue
  /\ unlogged (snd (FollowJournal_turn (API := odd) Sample.never Sample.fair w))
     = unlogged
         {| reader :=
              {| Journal :=
                   snd (Wait (JournalAPI := Sample.handle) (100 * Millisecond)
                          (Journal (snd (ReadEntry (API := Sample.handle)
                                           (reader w))))) |};
            polls := S (S (polls w)); sink := sink w; logged := logged w |}.
Proof.
  cbv zeta.
  apply (proj1 (proj2 (proj2 (proj2
           (event_code_irrelevant Sample.handle (Lib := Store.golib)
              (fun _ _ => 7) Sample.never Sample.fair 0)))));
    reflexivity.
Defined.

(** ** Construction *)

Section Construction.
Context {J : Type} `{API : JournalAPI J} `{Lib : GoLib}.

(** A failure to open the journal aborts construction. *)
Lemma NewJournalReader_open_error (config : JournalReaderConfig) (m : string) :
  NewJournal = Err m ->
  NewJournalReader config = (None, Some (Other m)).
Proof. unfold NewJournalReader. intros ->. reflexivity. Qed.

(** So does a failure of the seek by time. *)
Lemma NewJournalReader_seek_error (config : JournalReaderConfig) (j0 j1 : J)
    (m : string) :
  NewJournal = Ok j0 -> Since config <> 0 ->
  SeekRealtimeUsec (uint64 (Z.quot (int64 (time_Now + Since config)) 1000))
                   (add_matches (Matches config) j0) = (Some m, j1) ->
  NewJournalReader config = (None, Some (Other m)).
Proof.
  unfold NewJournalReader. intros -> Hs Hk.
  destruct (Z.eqb_spec (Since config) 0); [contradiction|]. cbn.
  rewrite Hk. reflexivity.
Qed.

(** With neither start option set, construction succeeds as soon as the
    journal opens, whatever [AddMatch] reported on the way. *)
Lemma NewJournalReader_ignores_AddMatch (config : JournalReaderConfig) (j0 : J) :
  NewJournal = Ok j0 -> Since config = 0 -> NumFromTail config = 0 ->
  NewJournalReader config
  = (Some {| Journal := add_matches (Matches config) j0 |}, None).
Proof.
  unfold NewJournalReader. intros -> -> ->. reflexivity.
Qed.

(** The count-from-tail start, as long as [N + 1] fits 64 bits. *)
Lemma NewJournalReader_from_tail (config : JournalReaderConfig) (j0 : J) :
  NewJournal = Ok j0 -> Since config = 0 ->
  0 < NumFromTail config < 2 ^ 64 - 1 ->
  NewJournalReader config =
  match SeekTail (add_matches (Matches config) j0) with
  | (Some m, _) => (None, Some (Other m))
  | (None, j1) =>
    match PreviousSkip (NumFromTail config + 1) j1 with
    | (Err m, _) => (None, Some (Other m))
    | (Ok _, j2) => (Some {| Journal := j2 |}, None)
    end
  end.
Proof.
  unfold NewJournalReader. intros -> -> HN.
  destruct (Z.eqb_spec (NumFromTail config) 0) as [E|_]; [lia|]. cbn.
  unfold uint64. rewrite Z.mod_small by lia. reflexivity.
Qed.

End Construction.

(** C5.  A match with an empty field name encodes to "=foo.service",
    which the handle refuses; [NewJournalReader] drops that error and
    hands out a reader with a nil error. *)
Theorem NewJournalReader_drops_AddMatch_error :
  let api := Store.api (Ok (Store.fresh Sample.log3)) in
  let m := {| Field := ""; Value := "foo.service" |} in
  let config := {| Since := 0; NumFromTail := 0; Matches := [m] |} in
  fst (AddMatch (JournalAPI := api) (Match_String m) (Store.fresh Sample.log3))
  = Some "failed to add match: invalid argument"
  /\ NewJournalReader (API := api) (Lib := Store.golib) config
     = (Some {| Journal := Store.fresh Sample.log3 |}, None).
Proof.
  cbv zeta. split; [reflexivity|].
  rewrite (NewJournalReader_ignores_AddMatch _ (Store.fresh Sample.log3))
    by reflexivity.
  reflexivity.
Qed.

(** ** The count-from-tail start on the store *)

Section TailStart.
Import Store.
Variable disk : result State.

Lemma add_matches_store (ms : list Match) (s : State) :
  records (add_matches (API := api disk) ms s) = records s
  /\ cursor (add_matches (API := api disk) ms s) = cursor s
  /\ fault (add_matches (API := api disk) ms s) = fault s.
Proof.
  revert s. induction ms as [|m ms IH]; intros s; [auto|].
  unfold add_matches in *. cbn [fold_left].
  destruct (IH (snd (AddMatch (JournalAPI := api disk) (Match_String m) s)))
    as (Hr & Hc & Hf).
  rewrite Hr, Hc, Hf. cbn. unfold add_match.
  destruct (well_formed (Match_String m)); auto.
Qed.

(** From the tail, [n + 1] steps back and one advance land on the record
    [n] places before the tail, when at least [n + 1] records are
    exposed. *)
Lemma back_then_next (n : Z) (s : State) :
  fault s = None -> 0 < n -> n + 1 <= size s ->
  exists e,
    exposed s !! Z.to_nat (size s - n) = Some e
    /\ forall s1 k, previous_skip (n + 1) (snd (seek_tail s)) = (k, s1) ->
         k = Ok (n + 1)
         /\ cursor s1 = size s - (n + 1)
         /\ ReadEntry (API := api disk) {| Journal := s1 |}
            = ((Some (fields e), None),
               {| Journal := move (size s - n) s1 |}).
Proof.
  intros Hf Hn Hsz.
  destruct (lookup_lt_is_Some_2 (exposed s) (Z.to_nat (size s - n))) as [e He].
  { unfold size in *. lia. }
  exists e. split; [exact He|].
  intros s1 k. unfold seek_tail, previous_skip, guarded. rewrite Hf.
  cbn [snd fault move cursor]. rewrite Hf. intros [= <- <-].
  replace (Z.max 0 (Z.min (n + 1) (size s))) with (n + 1) by lia.
  split; [reflexivity|]. split; [reflexivity|].
  rewrite (ReadEntry_store disk)
    by (cbn [fault move cursor]; first [exact Hf|lia]).
  cbn [move cursor].
  change (size (move (size s - (n + 1)) (move (size s) s))) with (size s).
  change (exposed (move (size s - (n + 1)) (move (size s) s))) with (exposed s).
  destruct (Z.ltb_spec (size s - (n + 1) + 1) (size s)) as [_|]; [|lia].
  replace (size s - (n + 1) + 1) with (size s - n) by lia.
  rewrite He. reflexivity.
Qed.

End TailStart.

(** C4.  Two records and [N = 2].  From the tail the journal can step
    back two records only, not the three it is asked for; it stops on the
    first record and reports 2, a count that construction drops.  The
    advance of the first read then leaves that record: the first entry
    yielded is the second record, one place before the tail, and the record
    two places before the tail is never yielded. *)
Theorem NewJournalReader_tail_skips_oldest_record :
  let api := Store.api (Ok (Store.fresh Sample.log2)) in
  let config := {| Since := 0; NumFromTail := 2; Matches := [] |} in
  let at_ c := Store.move c (Store.fresh Sample.log2) in
  PreviousSkip (JournalAPI := api) (2 + 1) (at_ 2) = (Ok 2, at_ 0)
  /\ NewJournalReader (API := api) (Lib := Store.golib) config
     = (Some {| Journal := at_ 0 |}, None)
  /\ ReadEntry (API := api) {| Journal := at_ 0 |}
     = ((Some (Store.fields Sample.bye), None), {| Journal := at_ 1 |})
  /\ ReadEntry (API := api) {| Journal := at_ 1 |}
     = ((None, Some EOF), {| Journal := at_ 1 |})
  /\ Store.exposed (at_ 0) !! Z.to_nat (Store.size (at_ 0) - 2)
     = Some Sample.hello.
Proof.
  cbv zeta. repeat apply conj; reflexivity.
Qed.

(** With [N = 2^64 - 1] the sum [N + 1] wraps to 0: construction steps
    back by nothing, the cursor stays at the tail and the next read finds
    no entry. *)
Lemma NewJournalReader_tail_count_wraps :
  let max := {| Since := 0; NumFromTail := 2 ^ 64 - 1; Matches := [] |} in
  uint64 (NumFromTail max + 1) = 0
  /\ (exists r,
        NewJournalReader (API := Sample.handle) (Lib := Store.golib) max
        = (Some r, None)
        /\ Store.cursor (Journal r) = Store.size (Journal r)
        /\ fst (ReadEntry (API := Sample.handle) r) = (None, Some EOF)).
Proof.
  cbv zeta. split; [reflexivity|].
  eexists. split; [reflexivity|]. split; reflexivity.
Qed.

(** Where the count from the tail does what it is meant to.  With the
    time offset unset and [0 < N < 2^64 - 1], construction calls
    [SeekTail] and then, if that succeeds, [PreviousSkip (N + 1)], and
    fails if either fails.  On a store that exposes, under the filters
    added, at least [N + 1] records, both succeed, and the first read
    after construction yields the record [N] places before the tail. *)
Lemma NewJournalReader_tail_start :
  (forall (J : Type) (API : JournalAPI J) (Lib : GoLib)
          (config : JournalReaderConfig) (j0 : J),
      NewJournal = Ok j0 -> Since config = 0 ->
      0 < NumFromTail config < 2 ^ 64 - 1 ->
      NewJournalReader config =
      match SeekTail (add_matches (Matches config) j0) with
      | (Some m, _) => (None, Some (Other m))
      | (None, j1) =>
        match PreviousSkip (NumFromTail config + 1) j1 with
        | (Err m, _) => (None, Some (Other m))
        | (Ok _, j2) => (Some {| Journal := j2 |}, None)
        end
      end)
  /\ (forall (config : JournalReaderConfig) (log : list Store.Entry),
      let api := Store.api (Ok (Store.fresh log)) in
      let s := add_matches (API := api) (Matches config) (Store.fresh log) in
      let N := NumFromTail config in
      let L := Store.size s in
      Since config = 0 -> 0 < N < 2 ^ 64 - 1 -> N + 1 <= L ->
      exists r r' e,
        NewJournalReader (API := api) (Lib := Store.golib) config = (Some r, None)
        /\ Store.cursor (Journal r) = L - (N + 1)
        /\ ReadEntry (API := api) r = ((Some (Store.fields e), None), r')
        /\ Store.exposed s !! Z.to_nat (L - N) = Some e
        /\ Store.cursor (Journal r') = L - N).
Proof.
  split.
  - intros J API Lib config j0. apply NewJournalReader_from_tail.
  - intros config log. cbv zeta. intros HS HN HL.
    pose proof (add_matches_store (Ok (Store.fresh log)) (Matches config)
                  (Store.fresh log)) as (_ & _ & Hf).
    rewrite (NewJournalReader_from_tail config (Store.fresh log))
      by (auto; reflexivity).
    remember (add_matches (API := Store.api (Ok (Store.fresh log)))
                (Matches config) (Store.fresh log)) as s eqn:Es.
    cbn in Hf.
    destruct (back_then_next (Ok (Store.fresh log)) (NumFromTail config) s)
      as (e & He & Hstep); [exact Hf|lia|lia|].
    change (SeekTail s) with (Store.seek_tail s).
    destruct (Store.seek_tail s) as [st s0] eqn:Hst.
    assert (st = None) as ->
      by (unfold Store.seek_tail in Hst; rewrite Hf in Hst; congruence).
    change (PreviousSkip (NumFromTail config + 1) s0)
      with (Store.previous_skip (NumFromTail config + 1) s0).
    cbn [snd] in Hstep.
    destruct (Store.previous_skip (NumFromTail config + 1) s0) as [k s1] eqn:Hk.
    destruct (Hstep s1 k eq_refl) as (-> & Hc1 & Hread).
    exists {| Journal := s1 |},
           {| Journal := Store.move (Store.size s - NumFromTail config) s1 |},
           e.
    split; [reflexivity|]. split; [exact Hc1|]. split; [exact Hread|].
    split; [exact He|reflexivity].
Qed.

(** Three records, [N = 2]: the first read yields the second record, two
    places before the tail. *)
Example NewJournalReader_tail_start_log3 :
  let config := {| Since := 0; NumFromTail := 2; Matches := [] |} in
  exists r r',
    NewJournalReader (API := Sample.handle) (Lib := Store.golib) config
    = (Some r, None)
    /\ ReadEntry (API := Sample.handle) r
       = ((Some (Store.fields Sample.bye), None), r')
    /\ Store.size (Journal r') - Store.cursor (Journal r') = 2.
Proof.
  cbv zeta. eexists. eexists. split; [reflexivity|]. split; reflexivity.
Qed.

(** ** Rendering one line *)

Section Line.
Context {J : Type} `{API : JournalAPI J} `{Lib : GoLib}.

Lemma buildMessage_unfold (r : JournalReader J) :
  buildMessage r =
  match GetData "MESSAGE" (Journal r) with
  | (Err e, j1) => (("", Some (Other e)), {| Journal := j1 |})
  | (Ok msg, j1) =>
    match GetRealtimeUsec j1 with
    | (Err e, j2) => (("", Some (Other e)), {| Journal := j2 |})
    | (Ok usec, j2) =>
      ((Time_String (int64 (int64 usec * Microsecond))
          +:+ " " +:+ msg +:+ newline, None),
       {| Journal := j2 |})
    end
  end.
Proof.
  unfold buildMessage, bind, journal, ret.
  destruct (GetData "MESSAGE" (Journal r)) as [[msg|e] j1]; cbn; [|reflexivity].
  destruct (GetRealtimeUsec j1) as [[usec|e] j2]; reflexivity.
Qed.

End Line.

(** A stamp that is a number of microseconds below 2^63 / 1000 becomes
    that many thousands of nanoseconds. *)
Lemma timestamp_exact (usec : Z) :
  0 <= usec <= 9223372036854775 ->
  int64 (int64 usec * Microsecond) = usec * 1000.
Proof.
  intros H. unfold int64, Microsecond.
  rewrite (Z.mod_small (usec + 2 ^ 63)) by lia.
  replace (usec + 2 ^ 63 - 2 ^ 63) with usec by lia.
  rewrite Z.mod_small by lia. lia.
Qed.

(** C8.  [buildMessage] asks the handle for the field MESSAGE and for the
    real-time stamp in microseconds, nothing else.  If the field cannot be
    had it returns that error and an empty string is not rendered in its
    place; likewise for the stamp; otherwise the line is the stamp, turned
    into an instant and printed, a space, the message and a line feed.  On
    the store this reads: the line depends on the record's MESSAGE field
    and stamp only, and a record without MESSAGE gives an error. *)
Theorem buildMessage_line :
  (forall (J : Type) (API : JournalAPI J) (Lib : GoLib) (r : JournalReader J),
      (forall e j1, GetData "MESSAGE" (Journal r) = (Err e, j1) ->
         buildMessage r = (("", Some (Other e)), {| Journal := j1 |}))
      /\ (forall msg j1 e j2,
         GetData "MESSAGE" (Journal r) = (Ok msg, j1) ->
         GetRealtimeUsec j1 = (Err e, j2) ->
         buildMessage r = (("", Some (Other e)), {| Journal := j2 |}))
      /\ (forall msg j1 usec j2,
         GetData "MESSAGE" (Journal r) = (Ok msg, j1) ->
         GetRealtimeUsec j1 = (Ok usec, j2) ->
         buildMessage r
         = ((Time_String (int64 (int64 usec * Microsecond))
               +:+ " " +:+ msg +:+ newline, None),
            {| Journal := j2 |})))
  /\ (forall (disk : result Store.State) (Lib : GoLib) (s : Store.State)
             (e : Store.Entry),
      Store.fault s = None -> Store.current s = Some e ->
      buildMessage (API := Store.api disk) {| Journal := s |}
      = (match Store.fields e !! "MESSAGE" with
         | Some msg =>
           (Time_String (int64 (int64 (Store.realtime e) * Microsecond))
              +:+ " " +:+ msg +:+ newline, None)
         | None => ("", Some (Other "no such field"))
         end, {| Journal := s |})).
Proof.
  split.
  - intros J API Lib r. rewrite buildMessage_unfold.
    split; [|split].
    + intros e j1 ->. reflexivity.
    + intros msg j1 e j2 -> ->. reflexivity.
    + intros msg j1 usec j2 -> ->. reflexivity.
  - intros disk Lib s e Hf He. rewrite buildMessage_unfold. cbn.
    unfold Store.get_data, Store.get_realtime_usec, Store.guarded.
    rewrite Hf, He.
    destruct (Store.fields e !! "MESSAGE") as [msg|]; [|reflexivity].
    rewrite Hf, He. reflexivity.
Qed.

(** C8 at work: the record {"MESSAGE":"hello"} stamped 5 microseconds is
    rendered as the instant 5000 ns, a space, hello and a line feed; a
    record without MESSAGE is an error. *)
Lemma buildMessage_line_witness :
  fst (buildMessage (API := Sample.handle) (Lib := Store.golib)
         {| Journal := Store.move 0 (Store.fresh [Sample.hello]) |})
  = ("5000ns hello" +:+ newline, None)
  /\ fst (buildMessage (API := Sample.handle) (Lib := Store.golib)
            {| Journal := Store.move 0 (Store.fresh [Sample.silent]) |})
     = ("", Some (Other "no such field")).
Proof.
  unfold Sample.handle. split.
  - rewrite (proj2 buildMessage_line (Ok (Store.fresh Sample.log3)) Store.golib
               (Store.move 0 (Store.fresh [Sample.hello])) Sample.hello
               eq_refl eq_refl).
    reflexivity.
  - rewrite (proj2 buildMessage_line (Ok (Store.fresh Sample.log3)) Store.golib
               (Store.move 0 (Store.fresh [Sample.silent])) Sample.silent
               eq_refl eq_refl).
    reflexivity.
Defined.

(** ** Reading into a buffer *)

Lemma bytes_length (s : string) :
  List.length (bytes s) = String.length s.
Proof.
  unfold bytes, list_byte_of_string. rewrite List.length_map.
  induction s as [|a s IH]; cbn; [reflexivity|]. rewrite IH. reflexivity.
Qed.

Lemma copy_short (dst src : list byte) :
  (List.length dst <= List.length src)%nat ->
  copy dst src = firstn (List.length dst) src.
Proof.
  intros H. unfold copy. rewrite skipn_all2 by exact H. apply app_nil_r.
Qed.

Lemma skipn_repeat {A : Type} (x : A) (n k : nat) :
  skipn n (repeat x k) = repeat x (k - n).
Proof.
  revert n. induction k as [|k IH]; intros [|n]; cbn; auto.
Qed.

Lemma make_length (n : Z) : List.length (make n) = Z.to_nat n.
Proof. unfold make. apply repeat_length. Qed.

(** What [copy] leaves in a fresh buffer: the message, cut at the size of
    the buffer, then the zero bytes it did not reach. *)
Lemma copy_make (n : Z) (src : list byte) :
  copy (make n) src
  = (firstn (Z.to_nat n) src ++ repeat x00 (Z.to_nat n - List.length src))%list.
Proof.
  unfold copy. rewrite make_length. unfold make. rewrite skipn_repeat.
  reflexivity.
Qed.

Section Buffer.
Context {J : Type} `{API : JournalAPI J} `{Lib : GoLib}.

(** C9.  When the entry under the cursor renders to a message longer than
    the caller's buffer, [Read] fills the buffer with the head of the
    message and still returns the length of the whole message, with a nil
    error: the count is larger than the number of bytes stored. *)
Theorem Read_count_exceeds_buffer (b : list byte) (r : JournalReader J)
    (c : Z) (j1 j2 : J) (m : JournalEntry) (s : string) :
  Next (Journal r) = (Ok c, j1) -> c <> 0 ->
  GetDataAll j1 = (Ok m, j2) ->
  json_Marshal m = Ok s ->
  (List.length b < String.length (s +:+ newline))%nat ->
  exists b' n,
    Read b r = ((b', n, None), {| Journal := j2 |})
    /\ b' = firstn (List.length b) (bytes (s +:+ newline))
    /\ n = len (s +:+ newline)
    /\ Z.of_nat (List.length b') < n.
Proof.
  intros HN Hc HG HM Hlen.
  exists (firstn (List.length b) (bytes (s +:+ newline))), (len (s +:+ newline)).
  rewrite Read_unfold, HN.
  destruct (Z.eqb_spec c 0); [contradiction|].
  rewrite HG, HM, copy_short by (rewrite bytes_length; lia).
  split; [reflexivity|]. split; [reflexivity|]. split; [reflexivity|].
  rewrite length_firstn, bytes_length. unfold len. lia.
Qed.

End Buffer.

(** C9 at work: a buffer of three bytes and the entry {"MESSAGE":"hello"};
    three bytes are stored and the count returned is 20. *)
Lemma Read_count_exceeds_buffer_witness :
  exists b' n,
    Read (API := Sample.handle) (Lib := Store.golib) [x00; x00; x00]
         {| Journal := Store.fresh Sample.log3 |}
    = ((b', n, None), {| Journal := Store.move 0 (Store.fresh Sample.log3) |})
    /\ b' = firstn 3 (bytes (Store.render (Store.fields Sample.hello) +:+ newline))
    /\ n = len (Store.render (Store.fields Sample.hello) +:+ newline)
    /\ Z.of_nat (List.length b') < n.
Proof.
  apply (Read_count_exceeds_buffer (API := Sample.handle) (Lib := Store.golib)
           [x00; x00; x00] {| Journal := Store.fresh Sample.log3 |} 1
           (Store.move 0 (Store.fresh Sample.log3))
           (Store.move 0 (Store.fresh Sample.log3))
           (Some (Store.fields Sample.hello))
           (Store.render (Store.fields Sample.hello)));
    [reflexivity|discriminate|reflexivity|reflexivity|vm_compute; lia].
Defined.

(** ** What [Follow] writes *)

Lemma length_append (s t : string) :
  String.length (s +:+ t) = (String.length s + String.length t)%nat.
Proof.
  induction s as [|a s IH]; [reflexivity|].
  change (String.length (String a s +:+ t)) with (S (String.length (s +:+ t))).
  rewrite IH. reflexivity.
Qed.

(** C10, as stated, fails: an entry whose message is 64 KiB long renders
    to 65551 bytes; [Follow] writes the first 65536 of them and no zero
    byte comes after the message, nor anywhere in what is written. *)
Lemma Follow_long_message_no_padding :
  let api := Store.api (Ok (Store.fresh [Sample.long])) in
  let w : World Store.State (list byte) := Sample.start (Store.fresh [Sample.long]) in
  snd (fst (fst (Read (API := api) (Lib := Store.golib) (make 65536) (reader w))))
  = 65551
  /\ match sink (world_of (Follow (API := api) (Lib := Store.golib)
                            Sample.never Sample.fair 1 w)) with
     | [written] =>
       (Z.of_nat (List.length written) =? 65536)
       && negb (existsb (Byte.eqb x00) written)
     | _ => false
     end = true.
Proof.
  cbv zeta. split; vm_compute; reflexivity.
Qed.

Section Written.
Context {J : Type} `{API : JournalAPI J} `{Lib : GoLib}.

(** C10.  After each successful read [Follow] writes its whole buffer of
    65536 bytes, not the first [c] of them: the message, cut at 65536
    bytes, followed by zero bytes up to 65536.  A message shorter than the
    buffer is thus followed by zero bytes; one that is as long or longer
    fills what is written, cut short, with no zero byte after it. *)
Theorem Follow_writes_whole_buffer (ctx : Ctx) (sched : Sched)
    (w : World J (list byte)) (c : Z) (j1 j2 : J) (m : JournalEntry)
    (s : string) :
  Next (Journal (reader w)) = (Ok c, j1) -> c <> 0 ->
  GetDataAll j1 = (Ok m, j2) ->
  json_Marshal m = Ok s ->
  Done ctx (polls w) = false ->
  let msg := bytes (s +:+ newline) in
  let size := Z.to_nat 65536 in
  let written := (firstn size msg ++ repeat x00 (size - List.length msg))%list in
  Follow_turn ctx sched w
  = (Continue, send written (poll (with_reader {| Journal := j2 |} w)))
  /\ List.length written = size
  /\ ((List.length msg < size)%nat ->
      written = (msg ++ repeat x00 (size - List.length msg))%list)
  /\ ((size <= List.length msg)%nat -> written = firstn size msg).
Proof.
  intros HN Hc HG HM HD msg size written.
  split; [|split; [|split]].
  - unfold Follow_turn. rewrite Read_unfold, HN.
    destruct (Z.eqb_spec c 0); [contradiction|].
    rewrite HG, HM. cbn [fatal with_reader polls]. rewrite HD.
    assert ((0 <? len (s +:+ newline)) = true) as ->.
    { apply Z.ltb_lt. unfold len. rewrite length_append. cbn. lia. }
    change (Z.shiftl (64 * 1) 10) with 65536. rewrite copy_make.
    reflexivity.
  - subst written. rewrite length_app, length_firstn, repeat_length. lia.
  - intros Hlt. subst written. rewrite firstn_all2 by lia. reflexivity.
  - intros Hge. subst written.
    replace (size - List.length msg)%nat with 0%nat by lia.
    apply app_nil_r.
Qed.

End Written.

(** C10 at work: the entry {"MESSAGE":"hello"} renders to 20 bytes; what
    is written is those 20 bytes and 65516 zero bytes. *)
Lemma Follow_writes_whole_buffer_witness :
  let w : World Store.State (list byte) := Sample.start (Store.fresh Sample.log3) in
  let msg := bytes (Store.render (Store.fields Sample.hello) +:+ newline) in
  let size := Z.to_nat 65536 in
  let written := (firstn size msg ++ repeat x00 (size - List.length msg))%list in
  Follow_turn (API := Sample.handle) (Lib := Store.golib) Sample.never Sample.fair w
  = (Continue,
     send written
       (poll (with_reader {| Journal := Store.move 0 (Store.fresh Sample.log3) |} w)))
  /\ List.length written = size
  /\ ((List.length msg < size)%nat ->
      written = (msg ++ repeat x00 (size - List.length msg))%list)
  /\ ((size <= List.length msg)%nat -> written = firstn size msg).
Proof.
  apply (Follow_writes_whole_buffer (API := Sample.handle) (Lib := Store.golib)
           Sample.never Sample.fair (Sample.start (Store.fresh Sample.log3)) 1
           (Store.move 0 (Store.fresh Sample.log3))
           (Store.move 0 (Store.fresh Sample.log3))
           (Some (Store.fields Sample.hello))
           (Store.render (Store.fields Sample.hello)));
    [reflexivity|discriminate|reflexivity|reflexivity|reflexivity].
Defined.

(** ** Runs on the sample log *)

(** Three records: three turns write them in log order, the fourth finds
    the tail and waits; the loop is still running. *)
Example FollowJournal_drains_log3 :
  let o := FollowJournal (API := Sample.handle) Sample.never Sample.fair 4
             (Sample.start (Store.fresh Sample.log3)) in
  returned o = None
  /\ sink (world_of o)
     = [Some (Store.fields Sample.hello); Some (Store.fields Sample.bye);
        Some (Store.fields Sample.started)]
  /\ polls (world_of o) = 5%nat
  /\ logged (world_of o) = [].
Proof. cbv zeta. repeat apply conj; reflexivity. Qed.

(** A record that arrives during the wait is written by the next turn. *)
Example FollowJournal_resumes_after_wait :
  let s := {| Store.records := Sample.log2; Store.cursor := -1;
              Store.filters := []; Store.fault := None;
              Store.arrivals := [[Sample.silent]] |} in
  sink (world_of (FollowJournal (API := Sample.handle) Sample.never Sample.fair 4
                    (Sample.start s)))
  = [Some (Store.fields Sample.hello); Some (Store.fields Sample.bye);
     Some (Store.fields Sample.silent)].
Proof. reflexivity. Qed.

(** An event code that is none of the three known ones costs a log line
    and nothing else. *)
Example unknown_event_is_logged :
  let odd := with_event Sample.handle (fun _ _ => 7) in
  let w : World Store.State JournalEntry := Sample.start (Store.fresh Sample.log2) in
  logged (world_of (FollowJournal (API := odd) Sample.never Sample.fair 3 w))
  = ["Received unknown event: 7" +:+ newline]
  /\ logged (world_of (FollowJournal (API := Sample.handle) Sample.never
                         Sample.fair 3 w)) = []
  /\ sink (world_of (FollowJournal (API := odd) Sample.never Sample.fair 3 w))
     = sink (world_of (FollowJournal (API := Sample.handle) Sample.never
                         Sample.fair 3 w)).
Proof. cbv zeta. repeat apply conj; reflexivity. Qed.

(** Cancellation during the wait: the tail is found, the channel closes
    while the loop waits, and the call returns [ErrExpired]. *)
Example FollowJournal_cancelled_in_wait :
  returned (FollowJournal (API := Sample.handle) {| deadline := Some 1%nat |}
              Sample.fair 1 (Sample.start (Store.fresh [])))
  = Some (Some ErrExpired).
Proof. reflexivity. Qed.

(** [ReadEntry] at the tail keeps answering [io.EOF] and leaves the cursor
    where it is. *)
Example ReadEntry_at_tail :
  let r := {| Journal := Store.move 2 (Store.fresh Sample.log3) |} in
  ReadEntry (API := Sample.handle) r = ((None, Some EOF), r).
Proof. reflexivity. Qed.

(** * Further properties *)

(** ** Construction *)

Section ConstructionMore.
Context {J : Type} `{API : JournalAPI J} `{Lib : GoLib}.

(** X1.  [NewJournalReader] hands out a reader or an error, never both and
    never neither; the error is one the journal made, never [io.EOF] nor
    [ErrExpired]. *)
Theorem NewJournalReader_reader_xor_error (config : JournalReaderConfig) :
  (exists r, NewJournalReader config = (Some r, None))
  \/ (exists m, NewJournalReader config = (None, Some (Other m))).
Proof.
  unfold NewJournalReader.
  destruct NewJournal as [j0|m]; [|right; eauto].
  destruct (negb (Since config =? 0)).
  { destruct (SeekRealtimeUsec _ _) as [[m|] j1]; [right|left]; eauto. }
  destruct (negb (NumFromTail config =? 0)); [|left; eauto].
  destruct (SeekTail _) as [[m|] j1]; [right; eauto|].
  destruct (PreviousSkip _ j1) as [[k|m] j2]; [left|right]; eauto.
Qed.

(** X2.  The two start options are not refused together: when [Since] is set
    it decides alone, and [NumFromTail] is not looked at. *)
Theorem NewJournalReader_since_takes_precedence
    (config : JournalReaderConfig) (n : Z) :
  Since config <> 0 ->
  NewJournalReader {| Since := Since config; NumFromTail := n;
                      Matches := Matches config |}
  = NewJournalReader config.
Proof.
  intros HS. unfold NewJournalReader. cbn.
  destruct NewJournal as [j0|m]; [|reflexivity].
  destruct (Z.eqb_spec (Since config) 0); [contradiction|reflexivity].
Qed.

(** X3.  A start instant from 1970 on, within int64 nanoseconds, is sought as
    its whole number of microseconds. *)
Theorem NewJournalReader_seek_in_range (config : JournalReaderConfig) (j0 : J) :
  NewJournal = Ok j0 -> Since config <> 0 ->
  0 <= time_Now + Since config < 2 ^ 63 ->
  NewJournalReader config =
  match SeekRealtimeUsec ((time_Now + Since config) / 1000)
                         (add_matches (Matches config) j0) with
  | (Some m, _) => (None, Some (Other m))
  | (None, j1) => (Some {| Journal := j1 |}, None)
  end.
Proof.
  intros HN HS Hr. unfold NewJournalReader. rewrite HN.
  destruct (Z.eqb_spec (Since config) 0); [contradiction|]. cbn.
  assert (int64 (time_Now + Since config) = time_Now + Since config) as ->.
  { unfold int64. rewrite Z.mod_small by lia. lia. }
  rewrite Z.quot_div_nonneg by lia.
  assert (0 <= (time_Now + Since config) / 1000 < 2 ^ 64) as Hq.
  { split; [apply Z.div_pos; lia|].
    apply Z.div_lt_upper_bound; lia. }
  unfold uint64. rewrite Z.mod_small by exact Hq. reflexivity.
Qed.

(** X4.  A start instant before 1970 is not sought as such: its negative count
    of microseconds, converted to uint64, wraps to a count above 2^63. *)
Theorem NewJournalReader_seek_before_epoch_wraps
    (config : JournalReaderConfig) (j0 : J) :
  NewJournal = Ok j0 -> Since config <> 0 ->
  - 2 ^ 63 <= time_Now + Since config <= - 1000 ->
  let target := 2 ^ 64 - (- (time_Now + Since config)) / 1000 in
  2 ^ 63 < target
  /\ NewJournalReader config =
     match SeekRealtimeUsec target (add_matches (Matches config) j0) with
     | (Some m, _) => (None, Some (Other m))
     | (None, j1) => (Some {| Journal := j1 |}, None)
     end.
Proof.
  intros HN HS Hr target.
  assert (1 <= (- (time_Now + Since config)) / 1000 <= 2 ^ 63 / 1000) as Hq.
  { split; [apply Z.div_le_lower_bound; lia|apply Z.div_le_mono; lia]. }
  assert (2 ^ 63 / 1000 = 9223372036854775) as E by reflexivity.
  split; [subst target; lia|].
  unfold NewJournalReader. rewrite HN.
  destruct (Z.eqb_spec (Since config) 0); [contradiction|]. cbn.
  assert (int64 (time_Now + Since config) = time_Now + Since config) as ->.
  { unfold int64. rewrite Z.mod_small by lia. lia. }
  replace (time_Now + Since config) with (- (- (time_Now + Since config))) at 1
    by lia.
  rewrite Z.quot_opp_l by lia. rewrite Z.quot_div_nonneg by lia.
  unfold uint64.
  replace (- ((- (time_Now + Since config)) / 1000))
    with (target + (-1) * 2 ^ 64) by (subst target; lia).
  rewrite Z.mod_add by lia. rewrite Z.mod_small by (subst target; lia).
  reflexivity.
Qed.

End ConstructionMore.

(** One minute before the clock's reading, with a count from the tail set
    as well: the count changes nothing. *)
Lemma NewJournalReader_since_takes_precedence_witness :
  NewJournalReader (API := Sample.handle) (Lib := Store.golib)
    {| Since := - 60 * Second; NumFromTail := 0; Matches := [] |}
  = NewJournalReader (API := Sample.handle) (Lib := Store.golib)
      {| Since := - 60 * Second; NumFromTail := 5; Matches := [] |}.
Proof.
  apply (NewJournalReader_since_takes_precedence (API := Sample.handle)
           (Lib := Store.golib)
           {| Since := - 60 * Second; NumFromTail := 5; Matches := [] |} 0).
  discriminate.
Defined.

(** One minute before the clock's reading: every record of the sample log
    is older, and the cursor lands on the last one. *)
Lemma NewJournalReader_seek_in_range_witness :
  NewJournalReader (API := Sample.handle) (Lib := Store.golib)
    {| Since := - 60 * Second; NumFromTail := 0; Matches := [] |}
  = (Some {| Journal := Store.move 2 (Store.fresh Sample.log3) |}, None).
Proof.
  rewrite (NewJournalReader_seek_in_range (API := Sample.handle)
             (Lib := Store.golib)
             {| Since := - 60 * Second; NumFromTail := 0; Matches := [] |}
             (Store.fresh Sample.log3));
    [reflexivity|reflexivity|discriminate|].
  vm_compute. split; [intros H; discriminate H|reflexivity].
Defined.

(** Five microseconds before 1970: the instant sought is 2^64 - 5. *)
Lemma NewJournalReader_seek_before_epoch_wraps_witness :
  let config := {| Since := - 1700000000000000000 - 5000; NumFromTail := 0;
                   Matches := [] |} in
  2 ^ 63 < 2 ^ 64 - 5
  /\ NewJournalReader (API := Sample.handle) (Lib := Store.golib) config
     = match SeekRealtimeUsec (JournalAPI := Sample.handle) (2 ^ 64 - 5)
               (Store.fresh Sample.log3) with
       | (Some m, _) => (None, Some (Other m))
       | (None, j1) => (Some {| Journal := j1 |}, None)
       end.
Proof.
  cbv zeta.
  apply (NewJournalReader_seek_before_epoch_wraps (API := Sample.handle)
           (Lib := Store.golib)
           {| Since := - 1700000000000000000 - 5000; NumFromTail := 0;
              Matches := [] |}
           (Store.fresh Sample.log3));
    [reflexivity|discriminate|].
  vm_compute. split; intros H; discriminate H.
Defined.

(** ** Single reads *)

Lemma copy_length (dst src : list byte) :
  List.length (copy dst src) = List.length dst.
Proof.
  unfold copy. rewrite length_app, length_firstn, length_skipn. lia.
Qed.

Lemma copy_fits (dst src : list byte) :
  (List.length src <= List.length dst)%nat ->
  copy dst src = (src ++ skipn (List.length src) dst)%list.
Proof. intros H. unfold copy. rewrite firstn_all2 by exact H. reflexivity. Qed.

Section ReadsMore.
Context {J : Type} `{API : JournalAPI J} `{Lib : GoLib}.

(** X5.  [ReadEntry] never returns an entry together with an error, and the
    error it returns is never [ErrExpired]. *)
Theorem ReadEntry_entry_xor_error (r : JournalReader J) :
  (fst (fst (ReadEntry r)) <> None -> snd (fst (ReadEntry r)) = None)
  /\ snd (fst (ReadEntry r)) <> Some ErrExpired.
Proof.
  split; [|apply ReadEntry_not_expired].
  destruct (fst (fst (ReadEntry r))) as [f|] eqn:E; [|contradiction].
  intros _. apply (ReadEntry_entry_nil_error r f E).
Qed.

(** X6.  [Read] is [ReadEntry] followed by [json.Marshal]: both advance the
    handle in the same way and fail or find the tail together; the bytes
    are the marshalled entry and a line feed. *)
Theorem Read_is_ReadEntry_then_Marshal (b : list byte) (r : JournalReader J) :
  Read b r =
  match ReadEntry r with
  | ((_, Some e), r') => ((b, 0, Some e), r')
  | ((m, None), r') =>
    match json_Marshal m with
    | Err e => ((b, 0, Some (Other e)), r')
    | Ok s => ((copy b (bytes (s +:+ newline)), len (s +:+ newline), None), r')
    end
  end.
Proof.
  rewrite Read_unfold, ReadEntry_unfold.
  destruct (Next (Journal r)) as [[c|e] j1]; [|reflexivity].
  destruct (c =? 0); [reflexivity|].
  destruct (GetDataAll j1) as [[m|e] j2]; reflexivity.
Qed.

(** X7.  The count [Read] returns is positive exactly when its error is nil; on
    an error, [io.EOF] included, the count is 0 and the buffer is as it
    was. *)
Theorem Read_count_positive_iff_nil_error (b : list byte) (r : JournalReader J) :
  (snd (fst (Read b r)) = None <-> 0 < snd (fst (fst (Read b r))))
  /\ (snd (fst (Read b r)) <> None ->
      snd (fst (fst (Read b r))) = 0 /\ fst (fst (fst (Read b r))) = b).
Proof.
  assert (Hpos : forall s, 0 < len (s +:+ newline)).
  { intros s. unfold len. rewrite length_append. cbn. lia. }
  rewrite Read_unfold.
  destruct (Next (Journal r)) as [[c|e] j1]; cbn;
    [|split; [split; [discriminate|lia]|auto]].
  destruct (c =? 0); cbn; [split; [split; [discriminate|lia]|auto]|].
  destruct (GetDataAll j1) as [[m|e] j2]; cbn;
    [|split; [split; [discriminate|lia]|auto]].
  destruct (json_Marshal m) as [s|e]; cbn;
    [|split; [split; [discriminate|lia]|auto]].
  split; [split; [intros _; apply Hpos|reflexivity]|].
  intros H. contradiction.
Qed.

Lemma Read_buffer_length (b : list byte) (r : JournalReader J) :
  List.length (fst (fst (fst (Read b r)))) = List.length b.
Proof.
  rewrite Read_unfold.
  destruct (Next (Journal r)) as [[c|e] j1]; [|reflexivity].
  destruct (c =? 0); [reflexivity|].
  destruct (GetDataAll j1) as [[m|e] j2]; [|reflexivity].
  destruct (json_Marshal m) as [s|e]; [|reflexivity].
  apply copy_length.
Qed.

(** X8.  [Read] never changes the length of the caller's buffer.  When
    it returns a nil error, the entry is the one [ReadEntry] yields there,
    its encoding by [json.Marshal] succeeded, and with the message being
    that encoding and a line feed: the buffer holds the message cut at
    [len(b)], followed by the bytes the buffer held beyond the length of
    the message, and the count is the length of the whole message. *)
Theorem Read_keeps_buffer_length (b : list byte) (r : JournalReader J) :
  List.length (fst (fst (fst (Read b r)))) = List.length b
  /\ (snd (fst (Read b r)) = None ->
      exists s,
        snd (fst (ReadEntry r)) = None
        /\ json_Marshal (fst (fst (ReadEntry r))) = Ok s
        /\ fst (fst (fst (Read b r)))
           = (firstn (List.length b) (bytes (s +:+ newline))
                ++ skipn (String.length (s +:+ newline)) b)%list
        /\ snd (fst (fst (Read b r))) = len (s +:+ newline)
        /\ snd (Read b r) = snd (ReadEntry r)).
Proof.
  split; [apply Read_buffer_length|].
  rewrite Read_unfold, ReadEntry_unfold.
  destruct (Next (Journal r)) as [[c|e] j1]; [|discriminate].
  destruct (c =? 0); [discriminate|].
  destruct (GetDataAll j1) as [[m|e] j2]; [|discriminate].
  cbn [fst snd].
  destruct (json_Marshal m) as [s|e]; [|discriminate].
  intros _. exists s. cbn [fst snd]. unfold copy.
  rewrite bytes_length. auto.
Qed.

(** X9.  When the message fits the buffer, [Read] stores all of it at the
    front, leaves the bytes behind it as they were and returns its
    length. *)
Theorem Read_message_fits (b : list byte) (r : JournalReader J)
    (c : Z) (j1 j2 : J) (m : JournalEntry) (s : string) :
  Next (Journal r) = (Ok c, j1) -> c <> 0 ->
  GetDataAll j1 = (Ok m, j2) ->
  json_Marshal m = Ok s ->
  (String.length (s +:+ newline) <= List.length b)%nat ->
  let msg := bytes (s +:+ newline) in
  Read b r
  = (((msg ++ skipn (List.length msg) b)%list, Z.of_nat (List.length msg), None),
     {| Journal := j2 |}).
Proof.
  intros HN Hc HG HM Hlen msg. subst msg.
  rewrite Read_unfold, HN.
  destruct (Z.eqb_spec c 0); [contradiction|].
  rewrite HG, HM, copy_fits by (rewrite bytes_length; exact Hlen).
  unfold len. rewrite bytes_length. reflexivity.
Qed.

End ReadsMore.

(** The entry {"MESSAGE":"hello"} read into a buffer of 24 bytes: the 20
    bytes of the message, then the last 4 bytes of the buffer. *)
Lemma Read_message_fits_witness :
  let b := repeat x01 24 in
  let msg := bytes (Store.render (Store.fields Sample.hello) +:+ newline) in
  Read (API := Sample.handle) (Lib := Store.golib) b
       {| Journal := Store.fresh Sample.log3 |}
  = (((msg ++ skipn (List.length msg) b)%list, Z.of_nat (List.length msg), None),
     {| Journal := Store.move 0 (Store.fresh Sample.log3) |}).
Proof.
  cbv zeta.
  apply (Read_message_fits (API := Sample.handle) (Lib := Store.golib)
           (repeat x01 24) {| Journal := Store.fresh Sample.log3 |} 1
           (Store.move 0 (Store.fresh Sample.log3))
           (Store.move 0 (Store.fresh Sample.log3))
           (Some (Store.fields Sample.hello))
           (Store.render (Store.fields Sample.hello)));
    [reflexivity|discriminate|reflexivity|reflexivity|vm_compute; lia].
Defined.

(** ** The follow loops, over whole runs *)

Section RunsMore.
Context {J : Type} `{API : JournalAPI J} `{Lib : GoLib}.

Implicit Types (ctx : Ctx) (sched : Sched).

(** *** How a turn can end *)

Lemma await_expired_closed {T : Type} d ctx sched (w : World J T) :
  fst (await d ctx sched w) = Return (Some ErrExpired) ->
  Done ctx (polls w) = true
  /\ polls (snd (await d ctx sched w)) = S (polls w).
Proof.
  unfold await, journal.
  destruct (Done ctx (polls w)); cbn; [|destruct (Wait d _); discriminate].
  destruct (negb (sched (polls w))); cbn; [auto|].
  destruct (Wait d _); discriminate.
Qed.

Lemma FollowJournal_turn_ends ctx sched (w : World J JournalEntry) :
  let t := FollowJournal_turn ctx sched w in
  fst t = Continue
  \/ (fst t = Break /\ fatal (snd (fst (ReadEntry (reader w)))) = true)
  \/ (fst t = Return (Some ErrExpired)
      /\ exists k, Done ctx k = true /\ (k < polls (snd t))%nat).
Proof.
  cbv zeta. unfold FollowJournal_turn.
  destruct (ReadEntry (reader w)) as [[msg err] r]. cbn [fst snd].
  destruct (fatal err); [right; left; auto|].
  cbn [with_reader polls].
  destruct (Done ctx (polls w)) eqn:HD.
  { right; right. split; [reflexivity|]. exists (polls w). cbn. auto. }
  destruct msg as [f|]; [left; reflexivity|].
  match goal with
  | |- context [await ?d ctx sched ?w1] =>
    destruct (await_flow d ctx sched w1) as [E|E];
      [left; exact E|];
      destruct (await_expired_closed d ctx sched w1 E) as [Hd Hp]
  end.
  right; right. split; [exact E|].
  eexists. split; [exact Hd|]. rewrite Hp. cbn. lia.
Qed.

Lemma Follow_turn_ends ctx sched (w : World J (list byte)) :
  let t := Follow_turn ctx sched w in
  fst t = Continue
  \/ (fst t = Break
      /\ fatal (snd (fst (Read (make (Z.shiftl (64 * 1) 10)) (reader w)))) = true)
  \/ (fst t = Return (Some ErrExpired)
      /\ exists k, Done ctx k = true /\ (k < polls (snd t))%nat).
Proof.
  cbv zeta. unfold Follow_turn.
  destruct (Read _ (reader w)) as [[[msg c] err] r]. cbn [fst snd].
  destruct (fatal err); [right; left; auto|].
  cbn [with_reader polls].
  destruct (Done ctx (polls w)) eqn:HD.
  { right; right. split; [reflexivity|]. exists (polls w). cbn. auto. }
  destruct (0 <? c); [left; reflexivity|].
  match goal with
  | |- context [await ?d ctx sched ?w1] =>
    destruct (await_flow d ctx sched w1) as [E|E];
      [left; exact E|];
      destruct (await_expired_closed d ctx sched w1 E) as [Hd Hp]
  end.
  right; right. split; [exact E|].
  eexists. split; [exact Hd|]. rewrite Hp. cbn. lia.
Qed.

(** *** What the loops return *)

(** X10.  Whatever happens, the follow loops return nil or [ErrExpired]: never
    [io.EOF], never an error of the journal or of the encoder. *)
Theorem follow_returns_nil_or_ErrExpired ctx sched (turns : nat) :
  (forall w : World J JournalEntry,
      forall e, returned (FollowJournal ctx sched turns w) = Some e ->
                e = None \/ e = Some ErrExpired)
  /\ (forall w : World J (list byte),
      forall e, returned (Follow ctx sched turns w) = Some e ->
                e = None \/ e = Some ErrExpired).
Proof.
  split; induction turns as [|n IH]; intros w e; try discriminate.
  - cbn [FollowJournal].
    destruct (FollowJournal_turn_ends ctx sched w) as [E|[[E _]|[E _]]];
      cbv zeta in E;
      destruct (FollowJournal_turn ctx sched w) as [f w1]; cbn [fst] in E;
      subst f; [apply IH| |]; cbn; intros [= <-]; auto.
  - cbn [Follow].
    destruct (Follow_turn_ends ctx sched w) as [E|[[E _]|[E _]]];
      cbv zeta in E;
      destruct (Follow_turn ctx sched w) as [f w1]; cbn [fst] in E;
      subst f; [apply IH| |]; cbn; intros [= <-]; auto.
Qed.

(** X11.  [ErrExpired] is returned only by a run that found the channel closed
    at one of its looks; under a context that is never cancelled it is
    never returned. *)
Theorem follow_ErrExpired_only_when_closed ctx sched (turns : nat) :
  (forall w : World J JournalEntry,
      returned (FollowJournal ctx sched turns w) = Some (Some ErrExpired) ->
      exists k, Done ctx k = true
                /\ (k < polls (world_of (FollowJournal ctx sched turns w)))%nat)
  /\ (forall w : World J (list byte),
      returned (Follow ctx sched turns w) = Some (Some ErrExpired) ->
      exists k, Done ctx k = true
                /\ (k < polls (world_of (Follow ctx sched turns w)))%nat).
Proof.
  split; induction turns as [|n IH]; intros w; try discriminate.
  - cbn [FollowJournal].
    pose proof (FollowJournal_turn_ends ctx sched w) as H. cbv zeta in H.
    destruct (FollowJournal_turn ctx sched w) as [f w1]. cbn [fst snd] in H.
    destruct H as [->|[[-> _]|[-> H]]];
      [apply IH|discriminate|intros _; exact H].
  - cbn [Follow].
    pose proof (Follow_turn_ends ctx sched w) as H. cbv zeta in H.
    destruct (Follow_turn ctx sched w) as [f w1]. cbn [fst snd] in H.
    destruct H as [->|[[-> _]|[-> H]]];
      [apply IH|discriminate|intros _; exact H].
Qed.

(** X12.  A follow loop returns nil only in a turn whose read failed with an
    error other than [io.EOF]: the run was still in the loop before that
    turn, and the read made there is the one that failed. *)
Theorem follow_nil_only_after_failed_read ctx sched (turns : nat) :
  (forall w : World J JournalEntry,
      returned (FollowJournal ctx sched turns w) = Some None ->
      exists k wk,
        (k < turns)%nat
        /\ FollowJournal ctx sched k w = Running wk
        /\ fatal (snd (fst (ReadEntry (reader wk)))) = true)
  /\ (forall w : World J (list byte),
      returned (Follow ctx sched turns w) = Some None ->
      exists k wk,
        (k < turns)%nat
        /\ Follow ctx sched k w = Running wk
        /\ fatal (snd (fst (Read (make (Z.shiftl (64 * 1) 10)) (reader wk))))
           = true).
Proof.
  split; induction turns as [|n IH]; intros w; try discriminate.
  - cbn [FollowJournal].
    destruct (FollowJournal_turn_ends ctx sched w) as [E|[[E Hf]|[E _]]];
      cbv zeta in E;
      destruct (FollowJournal_turn ctx sched w) as [f w1] eqn:Et;
      cbn [fst] in E; subst f.
    + intros H. destruct (IH w1 H) as (k & wk & Hk & Hrun & Hf).
      exists (S k), wk. split; [lia|]. split; [|exact Hf].
      cbn [FollowJournal]. rewrite Et. exact Hrun.
    + intros _. exists 0%nat, w. split; [lia|]. split; [reflexivity|exact Hf].
    + discriminate.
  - cbn [Follow].
    destruct (Follow_turn_ends ctx sched w) as [E|[[E Hf]|[E _]]];
      cbv zeta in E;
      destruct (Follow_turn ctx sched w) as [f w1] eqn:Et;
      cbn [fst] in E; subst f.
    + intros H. destruct (IH w1 H) as (k & wk & Hk & Hrun & Hf).
      exists (S k), wk. split; [lia|]. split; [|exact Hf].
      cbn [Follow]. rewrite Et. exact Hrun.
    + intros _. exists 0%nat, w. split; [lia|]. split; [reflexivity|exact Hf].
    + discriminate.
Qed.

End RunsMore.

(** A run cancelled at its second look returns [ErrExpired], and a look
    that found the channel closed is among those it made. *)
Lemma follow_ErrExpired_only_when_closed_witness :
  let ctx := {| deadline := Some 1%nat |} in
  let w : World Store.State JournalEntry := Sample.start (Store.fresh Sample.log3) in
  exists k, Done ctx k = true
            /\ (k < polls (world_of (FollowJournal (API := Sample.handle) ctx
                                       Sample.fair 2 w)))%nat.
Proof.
  cbv zeta.
  apply (proj1 (follow_ErrExpired_only_when_closed (API := Sample.handle)
                  (Lib := Store.golib) {| deadline := Some 1%nat |}
                  Sample.fair 2)).
  reflexivity.
Defined.

(** A run on a handle that breaks returns nil, and the failed read is the
    one of its first turn. *)
Lemma follow_nil_only_after_failed_read_witness :
  let w : World Store.State JournalEntry :=
    Sample.start (Store.broken "EIO" Sample.log3) in
  exists k wk,
    (k < 3)%nat
    /\ FollowJournal (API := Sample.handle) Sample.never Sample.fair k w
       = Running wk
    /\ fatal (snd (fst (ReadEntry (API := Sample.handle) (reader wk)))) = true.
Proof.
  cbv zeta.
  apply (proj1 (follow_nil_only_after_failed_read (API := Sample.handle)
                  (Lib := Store.golib) Sample.never Sample.fair 3)).
  reflexivity.
Defined.

(** ** What the loops write and log *)

Section SinkAndLog.
Context {J : Type} `{API : JournalAPI J} `{Lib : GoLib}.

Implicit Types (ctx : Ctx) (sched : Sched).

Lemma grows_refl {A : Type} (P : A -> Prop) (l : list A) : grows P l l.
Proof. exists []. rewrite app_nil_r. auto. Qed.

Lemma grows_trans {A : Type} (P : A -> Prop) (l1 l2 l3 : list A) :
  grows P l1 l2 -> grows P l2 l3 -> grows P l1 l3.
Proof.
  intros (a & -> & Ha) (b & -> & Hb). exists (a ++ b)%list.
  rewrite app_assoc. split; [reflexivity|]. apply Forall_app. auto.
Qed.

Lemma grows_one {A : Type} (P : A -> Prop) (l : list A) (x : A) :
  P x -> grows P l (l ++ [x])%list.
Proof. intros H. exists [x]. auto. Qed.

(** Every run is a chain of turns. *)
Lemma FollowJournal_chain (R : World J JournalEntry -> World J JournalEntry -> Prop)
    ctx sched :
  (forall w, R w w) ->
  (forall a b c, R a b -> R b c -> R a c) ->
  (forall w, R w (snd (FollowJournal_turn ctx sched w))) ->
  forall turns w, R w (world_of (FollowJournal ctx sched turns w)).
Proof.
  intros Hrefl Htrans Hturn. induction turns as [|n IH]; intros w; [apply Hrefl|].
  cbn [FollowJournal]. specialize (Hturn w).
  destruct (FollowJournal_turn ctx sched w) as [[| |e] w1]; cbn [snd] in Hturn;
    [|exact Hturn|exact Hturn].
  apply (Htrans _ w1); [exact Hturn|apply IH].
Qed.

Lemma Follow_chain (R : World J (list byte) -> World J (list byte) -> Prop)
    ctx sched :
  (forall w, R w w) ->
  (forall a b c, R a b -> R b c -> R a c) ->
  (forall w, R w (snd (Follow_turn ctx sched w))) ->
  forall turns w, R w (world_of (Follow ctx sched turns w)).
Proof.
  intros Hrefl Htrans Hturn. induction turns as [|n IH]; intros w; [apply Hrefl|].
  cbn [Follow]. specialize (Hturn w).
  destruct (Follow_turn ctx sched w) as [[| |e] w1]; cbn [snd] in Hturn;
    [|exact Hturn|exact Hturn].
  apply (Htrans _ w1); [exact Hturn|apply IH].
Qed.

(** X13.  [FollowJournal] only appends to its sink, and never a nil entry: an
    entry that comes out nil of the decoding is not sent. *)
Theorem FollowJournal_sends_entries_only ctx sched (turns : nat)
    (w : World J JournalEntry) :
  grows (fun m => m <> None) (sink w)
        (sink (world_of (FollowJournal ctx sched turns w))).
Proof.
  revert turns w.
  apply (FollowJournal_chain
           (fun w w' => grows (fun m => m <> None) (sink w) (sink w'))).
  - intros w. apply grows_refl.
  - intros a b c. apply grows_trans.
  - intros w. unfold FollowJournal_turn.
    destruct (ReadEntry (reader w)) as [[msg err] r].
    destruct (fatal err); [apply grows_refl|].
    cbn [with_reader polls].
    destruct (Done ctx (polls w)); [apply grows_refl|].
    destruct msg as [f|]; [apply grows_one; discriminate|].
    rewrite await_sink. apply grows_refl.
Qed.

(** X14.  [Follow] only appends to its sink, and every write is a buffer of
    exactly 65536 bytes, whatever the length of the message. *)
Theorem Follow_writes_64k_buffers_only ctx sched (turns : nat)
    (w : World J (list byte)) :
  grows (fun b => List.length b = Z.to_nat 65536) (sink w)
        (sink (world_of (Follow ctx sched turns w))).
Proof.
  revert turns w.
  apply (Follow_chain
           (fun w w' => grows (fun b => List.length b = Z.to_nat 65536)
                              (sink w) (sink w'))).
  - intros w. apply grows_refl.
  - intros a b c. apply grows_trans.
  - intros w. unfold Follow_turn.
    pose proof (Read_buffer_length (make (Z.shiftl (64 * 1) 10)) (reader w)) as HL.
    destruct (Read _ (reader w)) as [[[msg c] err] r]. cbn [fst] in HL.
    destruct (fatal err); [apply grows_refl|].
    cbn [with_reader polls].
    destruct (Done ctx (polls w)); [apply grows_refl|].
    destruct (0 <? c).
    + apply grows_one. rewrite HL. apply make_length.
    + rewrite await_sink. apply grows_refl.
Qed.

(** What the tail of a turn logs: nothing, or the line of the code [Wait]
    reported, when that code is none of the three known ones. *)
Lemma await_logged {T : Type} d ctx sched (w : World J T) :
  grows (fun line => exists d' j,
             known_event (fst (Wait d' j)) = false
             /\ line = unknown_event_line (fst (Wait d' j)))
        (logged w) (logged (snd (await d ctx sched w))).
Proof.
  unfold await, journal.
  destruct (Done ctx (polls w) && negb (sched (polls w))); [apply grows_refl|].
  cbn [poll reader].
  destruct (Wait d (Journal (reader w))) as [e j] eqn:EW.
  fold (known_event e). destruct (known_event e) eqn:Ek; [apply grows_refl|].
  apply grows_one. exists d, (Journal (reader w)). rewrite EW. auto.
Qed.

Lemma FollowJournal_logged ctx sched (turns : nat) (w : World J JournalEntry) :
  grows (fun line => exists d j,
             known_event (fst (Wait d j)) = false
             /\ line = unknown_event_line (fst (Wait d j)))
        (logged w) (logged (world_of (FollowJournal ctx sched turns w))).
Proof.
  revert turns w.
  apply (FollowJournal_chain (fun w w' => grows _ (logged w) (logged w'))).
  - intros w. apply grows_refl.
  - intros a b c. apply grows_trans.
  - intros w. unfold FollowJournal_turn.
    destruct (ReadEntry (reader w)) as [[msg err] r].
    destruct (fatal err); [apply grows_refl|].
    cbn [with_reader polls].
    destruct (Done ctx (polls w)); [apply grows_refl|].
    destruct msg as [f|]; [apply grows_refl|].
    match goal with
    | |- context [await ?d ctx sched ?w1] => apply (await_logged d ctx sched w1)
    end.
Qed.

Lemma Follow_logged ctx sched (turns : nat) (w : World J (list byte)) :
  grows (fun line => exists d j,
             known_event (fst (Wait d j)) = false
             /\ line = unknown_event_line (fst (Wait d j)))
        (logged w) (logged (world_of (Follow ctx sched turns w))).
Proof.
  revert turns w.
  apply (Follow_chain (fun w w' => grows _ (logged w) (logged w'))).
  - intros w. apply grows_refl.
  - intros a b c. apply grows_trans.
  - intros w. unfold Follow_turn.
    destruct (Read _ (reader w)) as [[[msg c] err] r].
    destruct (fatal err); [apply grows_refl|].
    cbn [with_reader polls].
    destruct (Done ctx (polls w)); [apply grows_refl|].
    destruct (0 <? c); [apply grows_refl|].
    match goal with
    | |- context [await ?d ctx sched ?w1] => apply (await_logged d ctx sched w1)
    end.
Qed.

(** X16.  On a handle whose [Wait] reports known codes only, the follow loops
    log nothing. *)
Theorem follow_known_events_log_nothing ctx sched (turns : nat) :
  (forall d j, known_event (fst (Wait d j)) = true) ->
  (forall w : World J JournalEntry,
      logged (world_of (FollowJournal ctx sched turns w)) = logged w)
  /\ (forall w : World J (list byte),
      logged (world_of (Follow ctx sched turns w)) = logged w).
Proof.
  intros Hk.
  assert (Hnone : forall l l' : list string,
             grows (fun line => exists d j,
                        known_event (fst (Wait d j)) = false
                        /\ line = unknown_event_line (fst (Wait d j))) l l' ->
             l' = l).
  { intros l l' (added & -> & Hall). destruct added as [|x added].
    - apply app_nil_r.
    - apply Forall_cons_1 in Hall. destruct Hall as [(d & j & Hf & _) _].
      rewrite Hk in Hf. discriminate. }
  split; intros w; apply Hnone; [apply FollowJournal_logged|apply Follow_logged].
Qed.

End SinkAndLog.

(** The store's [Wait] reports no-op or append. *)
Lemma store_wait_known (d : Z) (j : Store.State) :
  known_event (API := Sample.handle) (fst (Wait (JournalAPI := Sample.handle) d j))
  = true.
Proof.
  cbn. unfold Store.wait. destruct (Store.arrivals j) as [|[|e new] rest];
    reflexivity.
Qed.

(** So nothing is logged on it. *)
Lemma follow_known_events_log_nothing_witness :
  logged (world_of (FollowJournal (API := Sample.handle) Sample.never
                      Sample.fair 5 (Sample.start (Store.fresh Sample.log3))))
  = [].
Proof.
  apply (proj1 (follow_known_events_log_nothing (API := Sample.handle)
                  (Lib := Store.golib) Sample.never Sample.fair 5
                  store_wait_known)).
Defined.

(** ** Draining *)

Section Drain.
Context {J : Type} `{API : JournalAPI J}.

(** X17.  While the handle has entries and the channel is open, each turn
    writes one entry and goes straight to the next read: [n] entries take
    [n] turns, [n] reads and [n] looks at the channel, with no [Wait] in
    between and nothing logged. *)
Theorem FollowJournal_drains_without_waiting (ctx : Ctx) (sched : Sched)
    (n : nat) (w : World J JournalEntry) (ms : list JournalEntry)
    (r' : JournalReader J) :
  reads n (reader w) = Some (ms, r') ->
  (forall k, (k < n)%nat -> Done ctx (polls w + k) = false) ->
  FollowJournal ctx sched n w
  = Running {| reader := r'; polls := polls w + n;
               sink := (sink w ++ ms)%list; logged := logged w |}.
Proof.
  revert w ms. induction n as [|n IH]; intros w ms Hr Hopen.
  { cbn in Hr. injection Hr as <- <-. cbn.
    rewrite app_nil_r, Nat.add_0_r. destruct w; reflexivity. }
  cbn [reads] in Hr. cbn [FollowJournal]. unfold FollowJournal_turn.
  destruct (ReadEntry (reader w)) as [[[f|] [e|]] r1]; try discriminate.
  destruct (reads n r1) as [[ms1 r2]|] eqn:Hr1; [|discriminate].
  injection Hr as <- <-.
  cbn [fatal with_reader polls].
  rewrite <- (Nat.add_0_r (polls w)) at 1. rewrite (Hopen 0%nat) by lia.
  rewrite (IH _ ms1); cbn.
  - rewrite <- app_assoc, Nat.add_succ_r. reflexivity.
  - exact Hr1.
  - intros k Hk. specialize (Hopen (S k)). rewrite Nat.add_succ_r in Hopen.
    apply Hopen. lia.
Qed.

End Drain.

(** The three records of the sample log are written by three turns. *)
Lemma FollowJournal_drains_without_waiting_witness :
  FollowJournal (API := Sample.handle) Sample.never Sample.fair 3
    (Sample.start (Store.fresh Sample.log3))
  = Running {| reader := {| Journal := Store.move 2 (Store.fresh Sample.log3) |};
               polls := 3;
               sink := [Some (Store.fields Sample.hello);
                        Some (Store.fields Sample.bye);
                        Some (Store.fields Sample.started)];
               logged := [] |}.
Proof.
  apply (FollowJournal_drains_without_waiting (API := Sample.handle)
           Sample.never Sample.fair 3 (Sample.start (Store.fresh Sample.log3))
           [Some (Store.fields Sample.hello); Some (Store.fields Sample.bye);
            Some (Store.fields Sample.started)]
           {| Journal := Store.move 2 (Store.fresh Sample.log3) |});
    [reflexivity|intros k _; reflexivity].
Defined.

(** ** The rendered line *)

Section LineMore.
Context {J : Type} `{API : JournalAPI J} `{Lib : GoLib}.

(** X18.  For a stamp below 2^63 / 1000 microseconds (the year 2262) the line
    shows the instant of the stamp itself, a thousand nanoseconds for each
    microsecond; no wrap-around takes place. *)
Theorem buildMessage_exact_timestamp (r : JournalReader J) (msg : string)
    (usec : Z) (j1 j2 : J) :
  GetData "MESSAGE" (Journal r) = (Ok msg, j1) ->
  GetRealtimeUsec j1 = (Ok usec, j2) ->
  0 <= usec <= 9223372036854775 ->
  buildMessage r
  = ((Time_String (usec * 1000) +:+ " " +:+ msg +:+ newline, None),
     {| Journal := j2 |}).
Proof.
  intros HG HU Hr. rewrite buildMessage_unfold, HG, HU, timestamp_exact by exact Hr.
  reflexivity.
Qed.

End LineMore.

(** The record stamped 7 microseconds is shown at 7000 nanoseconds. *)
Lemma buildMessage_exact_timestamp_witness :
  buildMessage (API := Sample.handle) (Lib := Store.golib)
    {| Journal := Store.move 1 (Store.fresh Sample.log3) |}
  = (("7000ns bye" +:+ newline, None),
     {| Journal := Store.move 1 (Store.fresh Sample.log3) |}).
Proof.
  apply (buildMessage_exact_timestamp (API := Sample.handle) (Lib := Store.golib)
           {| Journal := Store.move 1 (Store.fresh Sample.log3) |} "bye" 7
           (Store.move 1 (Store.fresh Sample.log3))
           (Store.move 1 (Store.fresh Sample.log3)));
    [reflexivity|reflexivity|lia].
Defined.

(** ** printWithType *)

Lemma fold_typed_lines_length (visits : list (string * Printed)) (s : string) :
  String.length (fold_left (fun s kv => s +:+ typed_line kv) visits s)
  = (String.length s
     + list_sum (List.map (fun kv => String.length (typed_line kv)) visits))%nat.
Proof.
  unfold list_sum. revert s.
  induction visits as [|kv visits IH]; intros s; cbn [fold_left List.map fold_right].
  - lia.
  - rewrite IH, length_append. lia.
Qed.

Lemma typed_line_length (kv : string * Printed) :
  String.length (typed_line kv)
  = (13 + String.length (fst kv) + String.length (type_name (snd kv))
     + String.length (shown (snd kv)))%nat.
Proof.
  unfold typed_line. rewrite !length_append. cbn. lia.
Qed.

(** X19.  The text [printWithType] builds has five bytes for its braces and
    line feeds and, for each entry of the map, thirteen bytes and the key,
    the type name and the value: its length does not depend on the order in
    which [range] visits the map, although the order of its lines does. *)
Theorem printWithType_length_any_order (v1 v2 : list (string * Printed)) :
  Permutation v1 v2 ->
  String.length (printWithType v1) = String.length (printWithType v2)
  /\ String.length (printWithType v1)
     = (5 + list_sum
              (List.map (fun kv => 13 + String.length (fst kv)
                                   + String.length (type_name (snd kv))
                                   + String.length (shown (snd kv)))
                        v1))%nat.
Proof.
  intros HP.
  assert (Hlen : forall v,
             String.length (printWithType v)
             = (5 + list_sum (List.map (fun kv => String.length (typed_line kv)) v))%nat).
  { intros v. unfold printWithType. cbv zeta.
    rewrite !length_append, fold_typed_lines_length, length_append.
    cbn. lia. }
  split.
  - rewrite !Hlen. f_equal. unfold list_sum.
    induction HP as [|x l l' _ IH|x y l|l l' l'' _ IH1 _ IH2];
      cbn [List.map fold_right] in *; lia.
  - rewrite Hlen. f_equal. f_equal. apply List.map_ext. intros kv.
    rewrite typed_line_length. lia.
Qed.

(** Two entries, visited in either order: the two texts are as long. *)
Lemma printWithType_length_any_order_witness :
  let a := ("MESSAGE", {| type_name := "string"; shown := "hello" |}) in
  let b := ("PID", {| type_name := "int"; shown := "42" |}) in
  String.length (printWithType [a; b]) = String.length (printWithType [b; a])
  /\ String.length (printWithType [a; b])
     = (5 + list_sum
              (List.map (fun kv => 13 + String.length (fst kv)
                                   + String.length (type_name (snd kv))
                                   + String.length (shown (snd kv)))
                        [a; b]))%nat.
Proof.
  cbv zeta.
  apply (printWithType_length_any_order
           [("MESSAGE", {| type_name := "string"; shown := "hello" |});
            ("PID", {| type_name := "int"; shown := "42" |})]
           [("PID", {| type_name := "int"; shown := "42" |});
            ("MESSAGE", {| type_name := "string"; shown := "hello" |})]).
  apply perm_swap.
Defined.

(** ** The log lines, code by code *)

Section Noted.
Context {J : Type} (API : JournalAPI J) `{Lib : GoLib}.

Implicit Types (ctx : Ctx) (sched : Sched).

(** The reads go through a noting handle as through the handle itself,
    and leave its list alone. *)
Lemma ReadEntry_noting (j : J) (h : list Z) :
  ReadEntry (API := noting API) {| Journal := (j, h) |} =
  let '(res, r) := ReadEntry (API := API) {| Journal := j |} in
  (res, {| Journal := (Journal r, h) |}).
Proof.
  rewrite !ReadEntry_unfold. cbn. unfold lift. cbn.
  destruct (Next j) as [[c|e] j1]; cbn; [|reflexivity].
  destruct (c =? 0); [reflexivity|].
  destruct (GetDataAll j1) as [[m|e] j2]; reflexivity.
Qed.

Lemma Read_noting (b : list byte) (j : J) (h : list Z) :
  Read (API := noting API) b {| Journal := (j, h) |} =
  let '(res, r) := Read (API := API) b {| Journal := j |} in
  (res, {| Journal := (Journal r, h) |}).
Proof.
  rewrite !Read_unfold. cbn. unfold lift. cbn.
  destruct (Next j) as [[c|e] j1]; cbn; [|reflexivity].
  destruct (c =? 0); [reflexivity|].
  destruct (GetDataAll j1) as [[m|e] j2]; cbn; [|reflexivity].
  destruct (json_Marshal m); reflexivity.
Qed.

Lemma noted_refl {T : Type} (w : World (J * list Z) T) : noted API w w.
Proof. exists []. cbn. rewrite !app_nil_r. auto. Qed.

Lemma noted_trans {T : Type} (a b c : World (J * list Z) T) :
  noted API a b -> noted API b c -> noted API a c.
Proof.
  intros (c1 & Hr1 & Hl1) (c2 & Hr2 & Hl2). exists (c1 ++ c2)%list.
  rewrite Hr2, Hr1, Hl2, Hl1, List.filter_app, List.map_app, <- !app_assoc.
  auto.
Qed.

Lemma noted_same {T : Type} (w w' : World (J * list Z) T) :
  reported (Journal (reader w')) = reported (Journal (reader w)) ->
  logged w' = logged w -> noted API w w'.
Proof. intros Hr Hl. exists []. cbn. rewrite Hr, Hl, !app_nil_r. auto. Qed.

Lemma await_noted {T : Type} d ctx sched (w : World (J * list Z) T) :
  noted API w (snd (await (API := noting API) d ctx sched w)).
Proof.
  unfold await, journal.
  destruct (Done ctx (polls w) && negb (sched (polls w)));
    [apply noted_same; reflexivity|].
  cbn. destruct (Wait d (fst (Journal (reader w)))) as [e j]. cbn.
  fold (known_event (API := API) e).
  exists [e]. cbn. destruct (known_event e); cbn; rewrite ?app_nil_r; auto.
Qed.

Lemma FollowJournal_turn_noted ctx sched (w : World (J * list Z) JournalEntry) :
  noted API w (snd (FollowJournal_turn (API := noting API) ctx sched w)).
Proof.
  unfold FollowJournal_turn. destruct w as [[[j h]] k out lg]. cbn [reader].
  rewrite ReadEntry_noting.
  destruct (ReadEntry {| Journal := j |}) as [[msg err] [j']].
  destruct (fatal err); [apply noted_same; reflexivity|].
  cbn -[await Z.mul].
  destruct (Done ctx k); [apply noted_same; reflexivity|].
  destruct msg as [f|]; [apply noted_same; reflexivity|].
  match goal with
  | |- noted API _ (snd (await _ _ _ ?w1)) =>
    destruct (await_noted (100 * Millisecond) ctx sched w1) as (codes & Hr & Hl)
  end.
  exists codes. rewrite Hr, Hl. auto.
Qed.

Lemma Follow_turn_noted ctx sched (w : World (J * list Z) (list byte)) :
  noted API w (snd (Follow_turn (API := noting API) ctx sched w)).
Proof.
  unfold Follow_turn. destruct w as [[[j h]] k out lg]. cbn [reader].
  rewrite Read_noting.
  destruct (Read _ {| Journal := j |}) as [[[msg c] err] [j']].
  destruct (fatal err); [apply noted_same; reflexivity|].
  cbn -[await Z.mul].
  destruct (Done ctx k); [apply noted_same; reflexivity|].
  destruct (0 <? c); [apply noted_same; reflexivity|].
  match goal with
  | |- noted API _ (snd (await _ _ _ ?w1)) =>
    destruct (await_noted (1 * Second) ctx sched w1) as (codes & Hr & Hl)
  end.
  exists codes. rewrite Hr, Hl. auto.
Qed.

(** The list changes nothing to a run. *)
Lemma await_forget {T : Type} d ctx sched (w : World (J * list Z) T) :
  await (API := API) d ctx sched (forget w)
  = (fst (await (API := noting API) d ctx sched w),
     forget (snd (await (API := noting API) d ctx sched w))).
Proof.
  unfold await, journal. cbn.
  destruct (Done ctx (polls w) && negb (sched (polls w))); [reflexivity|].
  destruct (Wait d (fst (Journal (reader w)))) as [e j]. cbn.
  destruct ((e =? SD_JOURNAL_NOP) || (e =? SD_JOURNAL_APPEND)
            || (e =? SD_JOURNAL_INVALIDATE)); reflexivity.
Qed.

Lemma FollowJournal_turn_forget ctx sched (w : World (J * list Z) JournalEntry) :
  FollowJournal_turn (API := API) ctx sched (forget w)
  = (fst (FollowJournal_turn (API := noting API) ctx sched w),
     forget (snd (FollowJournal_turn (API := noting API) ctx sched w))).
Proof.
  unfold FollowJournal_turn.
  destruct w as [[[j h]] k out lg]. cbn [reader forget Journal fst].
  rewrite ReadEntry_noting.
  destruct (ReadEntry {| Journal := j |}) as [[msg err] [j']].
  destruct (fatal err); [reflexivity|].
  cbn -[await Z.mul].
  destruct (Done ctx k); [reflexivity|].
  destruct msg as [f|]; [reflexivity|].
  match goal with
  | |- _ = (fst (await _ _ _ ?w1), _) =>
    rewrite <- (await_forget (100 * Millisecond) ctx sched w1)
  end.
  reflexivity.
Qed.

Lemma Follow_turn_forget ctx sched (w : World (J * list Z) (list byte)) :
  Follow_turn (API := API) ctx sched (forget w)
  = (fst (Follow_turn (API := noting API) ctx sched w),
     forget (snd (Follow_turn (API := noting API) ctx sched w))).
Proof.
  unfold Follow_turn.
  destruct w as [[[j h]] k out lg]. cbn [reader forget Journal fst].
  rewrite Read_noting.
  destruct (Read _ {| Journal := j |}) as [[[msg c] err] [j']].
  destruct (fatal err); [reflexivity|].
  cbn -[await Z.mul].
  destruct (Done ctx k); [reflexivity|].
  destruct (0 <? c); [reflexivity|].
  match goal with
  | |- _ = (fst (await _ _ _ ?w1), _) =>
    rewrite <- (await_forget (1 * Second) ctx sched w1)
  end.
  reflexivity.
Qed.

(** X15.  Run on a handle that notes the event codes its [Wait] reports
    to the loop (the same run, list apart), and let [codes] be those noted
    during the run, in order.  Then what the follow loops log during the
    run is exactly one line "Received unknown event: n" for each [n] of
    [codes] that is none of the three known codes, in the same order, and
    nothing else: a known code, a read error or a cancellation logs
    nothing. *)
Theorem follow_logs_unknown_events_only ctx sched (turns : nat) :
  (forall w : World (J * list Z) JournalEntry,
      let o := FollowJournal (API := noting API) ctx sched turns w in
      FollowJournal (API := API) ctx sched turns (forget w) = map_outcome forget o
      /\ exists codes,
           reported (Journal (reader (world_of o)))
           = (reported (Journal (reader w)) ++ codes)%list
           /\ logged (world_of o)
              = (logged w
                   ++ List.map unknown_event_line
                        (List.filter (fun e => negb (known_event (API := API) e))
                                     codes))%list)
  /\ (forall w : World (J * list Z) (list byte),
      let o := Follow (API := noting API) ctx sched turns w in
      Follow (API := API) ctx sched turns (forget w) = map_outcome forget o
      /\ exists codes,
           reported (Journal (reader (world_of o)))
           = (reported (Journal (reader w)) ++ codes)%list
           /\ logged (world_of o)
              = (logged w
                   ++ List.map unknown_event_line
                        (List.filter (fun e => negb (known_event (API := API) e))
                                     codes))%list).
Proof.
  split; intros w; cbv zeta; split.
  - revert w. induction turns as [|n IH]; intros w; [reflexivity|].
    cbn [FollowJournal]. rewrite FollowJournal_turn_forget.
    destruct (FollowJournal_turn ctx sched w) as [[| |e] w']; cbn [fst snd];
      [apply IH|reflexivity|reflexivity].
  - revert turns w.
    apply (FollowJournal_chain (API := noting API) (noted API));
      [apply noted_refl|apply noted_trans|apply FollowJournal_turn_noted].
  - revert w. induction turns as [|n IH]; intros w; [reflexivity|].
    cbn [Follow]. rewrite Follow_turn_forget.
    destruct (Follow_turn ctx sched w) as [[| |e] w']; cbn [fst snd];
      [apply IH|reflexivity|reflexivity].
  - revert turns w.
    apply (Follow_chain (API := noting API) (noted API));
      [apply noted_refl|apply noted_trans|apply Follow_turn_noted].
Qed.

End Noted.

(** A [Wait] that reports 7, then 1, then 9: two lines are logged, for 7
    and for 9. *)
Example follow_logs_each_unknown_code :
  let codes (j : Store.State) :=
    match List.length (Store.records j) with
    | O => 7
    | S O => 1
    | _ => 9
    end in
  let api := noting (with_event Sample.handle (fun _ j => codes j)) in
  let s := {| Store.records := []; Store.cursor := -1; Store.filters := [];
              Store.fault := None;
              Store.arrivals := [[Sample.hello]; [Sample.bye]; []] |} in
  let o := FollowJournal (API := api) Sample.never Sample.fair 5
             (Sample.start (s, [])) in
  reported (Journal (reader (world_of o))) = [7; 1; 9]
  /\ logged (world_of o)
     = ["Received unknown event: 7" +:+ newline;
        "Received unknown event: 9" +:+ newline].
Proof. cbv zeta. split; reflexivity. Qed.

(** One filter, UNIT=foo.service, on a log of mixed units: only the two
    records of that unit are advanced to and written. *)
Example FollowJournal_filtered :
  let log := [Sample.hello; Sample.started; Sample.bye; Sample.silent] in
  let api := Store.api (Ok (Store.fresh log)) in
  let config := {| Since := 0; NumFromTail := 0;
                   Matches := [{| Field := "UNIT"; Value := "foo.service" |}] |} in
  exists r,
    NewJournalReader (API := api) (Lib := Store.golib) config = (Some r, None)
    /\ Store.filters (Journal r) = ["UNIT=foo.service"]
    /\ sink (world_of (FollowJournal (API := api) Sample.never Sample.fair 4
                         {| reader := r; polls := 0; sink := []; logged := [] |}))
       = [Some (Store.fields Sample.started); Some (Store.fields Sample.silent)].
Proof.
  cbv zeta. eexists. split; [reflexivity|]. split; reflexivity.
Qed.
